(** * EDA report generator for Amazon sales: a shallow embedding

    Source: [eda_report_generator.py].  The program reads a table, enriches
    it in place (date parsing, age bands, revenue), profiles its quality
    (IQR outlier counts), renders grouped bar charts and runs a battery of
    column-gated hypothesis tests whose results go to a text report.

    Conventions of the embedding.
    - A number in a column is an exact rational ([Qc]); a missing value is
      [NaN].  A column carries its dtype: int64, float64 and bool columns
      hold numbers (a boolean is 0 or 1).  Every literal of the program
      (18, 25, ..., 200, 0.25, 0.75, 1.5, 5, 0.05) is read as the rational
      it denotes, and comparisons, quantiles, means and percentages are
      computed exactly.  The one product of column values the program takes,
      price times quantity, is in the arithmetic of the columns: int64
      wraps modulo 2^64, float64 is the IEEE product.
    - A table is an index of row labels plus an ordered list of named
      columns; assigning a column replaces it in place when the name exists
      and appends it otherwise, as [df[name] = ...] does.
    - What the program delegates to scipy, statsmodels, matplotlib and the
      non-numeric corners of pandas is an interface ([Externals]); each such
      call may raise. *)

From Stdlib Require Import QArith Qcanon Qround.
From stdpp Require Import base numbers list sorting strings.

Local Open Scope string_scope.
Local Open Scope list_scope.

(** ** Values, columns, tables *)

Inductive cell : Type :=
  | NaN
  | Num (q : Qc)
  | Str (s : string).

(** The dtypes a column can have: [read_csv] gives int64, float64, bool or
    object; [pd.cut] gives a categorical, [pd.to_datetime] a datetime. *)
Inductive dtype : Type := Int64 | Float64 | Bool | Object | Category | Datetime.

(** The columns that hold numbers (a boolean counts as 0/1) *)
Definition is_number (d : dtype) : bool :=
  match d with Int64 | Float64 | Bool => true | _ => false end.

(** [np.number]: what [select_dtypes(include=[np.number])] keeps; a boolean
    column is not among them. *)
Definition is_np_number (d : dtype) : bool :=
  match d with Int64 | Float64 => true | _ => false end.

Record Series : Type := mkSeries { dtype_of : dtype; values : list cell }.

Record DataFrame : Type := mkDataFrame {
  df_index : list nat;
  df_columns : list (string * Series)
}.

#[global] Instance cell_eq_dec : EqDecision cell.
Proof. solve_decision. Defined.

#[global] Instance dtype_eq_dec : EqDecision dtype.
Proof. solve_decision. Defined.

Definition qz (n : Z) : Qc := Qc_of_Z n.

Definition isna (c : cell) : bool :=
  match c with NaN => true | _ => false end.

Definition notna (c : cell) : bool := negb (isna c).

Definition column_names (df : DataFrame) : list string := (df_columns df).*1.

(** [name in df.columns] *)
Definition has_column (name : string) (df : DataFrame) : bool :=
  bool_decide (name ∈ column_names df).

(** [set(names).issubset(df.columns)] *)
Definition issubset (names : list string) (df : DataFrame) : bool :=
  forallb (fun n => has_column n df) names.

Fixpoint assoc (name : string) (cols : list (string * Series)) : option Series :=
  match cols with
  | [] => None
  | (n, s) :: rest => if decide (n = name) then Some s else assoc name rest
  end.

(** [df[name]] as a read: [None] is the KeyError of an absent column. *)
Definition getitem (df : DataFrame) (name : string) : option Series :=
  assoc name (df_columns df).

Fixpoint assign (name : string) (s : Series) (cols : list (string * Series))
  : list (string * Series) :=
  match cols with
  | [] => [(name, s)]
  | (n, c) :: rest =>
      if decide (n = name) then (n, s) :: rest else (n, c) :: assign name s rest
  end.

(** [df[name] = s] *)
Definition setitem (df : DataFrame) (name : string) (s : Series) : DataFrame :=
  mkDataFrame (df_index df) (assign name s (df_columns df)).

(** The invariant of a table read by [pd.read_csv]: distinct row labels,
    distinct column names, and every column as long as the index. *)
Definition well_formed (df : DataFrame) : Prop :=
  NoDup (df_index df) ∧
  NoDup (column_names df) ∧
  Forall (fun c => length (values c.2) = length (df_index df)) (df_columns df).

(** ** Exceptions, and computations that mutate a state *)

Inductive exn : Type := KeyError | TypeError | ValueError | IndexError | LibraryError.

Inductive result (A : Type) : Type :=
  | Ok (a : A)
  | Raise (e : exn).
Arguments Ok {A} a.
Arguments Raise {A} e.

(** A computation over a mutable state [S]: it leaves a state behind whether
    it returns or raises. *)
Definition M (S A : Type) : Type := S -> result A * S.

Definition ret {S A} (a : A) : M S A := fun s => (Ok a, s).

Definition bind {S A B} (m : M S A) (k : A -> M S B) : M S B :=
  fun s => match m s with
           | (Ok a, s') => k a s'
           | (Raise e, s') => (Raise e, s')
           end.

Definition raise {S A} (e : exn) : M S A := fun s => (Raise e, s).

Definition get {S} : M S S := fun s => (Ok s, s).

Definition modify {S} (f : S -> S) : M S unit := fun s => (Ok tt, f s).

Definition lift {S A} (r : result A) : M S A := fun s => (r, s).

Declare Scope prog_scope.
Delimit Scope prog_scope with prog.
Notation "x <- c ;; k" := (bind c (fun x => k))
  (at level 100, c at next level, right associativity) : prog_scope.
Notation "c ;; k" := (bind c (fun _ => k))
  (at level 100, right associativity) : prog_scope.

(** [if cond: body] with no else branch *)
Definition when {S} (cond : bool) (body : M S unit) : M S unit :=
  if cond then body else ret tt.

(** ** The library interface *)

Definition float : Type := option Qc.

(** Row and column labels with counts: the frame [pd.crosstab] returns. *)
Record Crosstab : Type := mkCrosstab {
  ct_index : list cell;
  ct_columns : list cell;
  ct_counts : list (list nat)
}.

(** One rendered chart file *)
Record Plot : Type := mkPlot {
  plot_path : string;
  plot_title : string;
  plot_ylabel : string;
  plot_bars : list (cell * cell)
}.

(** The finite values of float64: an integer below 2^53 in magnitude, scaled
    by a power of two between 2^-1074 and 2^971. *)
Definition binary64 (q : Qc) : Prop :=
  ∃ (m : Z) (up down : nat),
    (Z.abs m < 2 ^ 53)%Z ∧ (up ≤ 971)%nat ∧ (down ≤ 1074)%nat
    ∧ (q * qz (2 ^ Z.of_nat down))%Qc = qz (m * 2 ^ Z.of_nat up).

(** The distinct present values of a list of labels, in the order in which
    labels are sorted: missing first, numbers by value, then strings
    lexicographically. *)
Definition cell_le (a b : cell) : Prop :=
  match a, b with
  | NaN, _ => True
  | _, NaN => False
  | Num x, Num y => (x ≤ y)%Qc
  | Num _, Str _ => True
  | Str _, Num _ => False
  | Str s, Str t => String.leb s t = true
  end.

#[global] Instance cell_le_dec : RelDecision cell_le.
Proof. intros [|x|s] [|y|t]; simpl; apply _. Defined.

Definition sorted_labels (l : list cell) : list cell :=
  merge_sort cell_le (remove_dups (filter (fun c => c ≠ NaN) l)).

(** What the program delegates to its libraries.  Each call may raise; the
    propositions record what the libraries document about the calls. *)
Class Externals : Type := {
  (** [pd.to_datetime(column)] *)
  to_datetime : Series -> result Series;
  (** [x * y] on two finite float64 values: the IEEE-754 product, rounded to
      the nearest float64 *)
  float_mul : Qc -> Qc -> cell;
  (** a product that is itself a float64 value is not rounded *)
  float_mul_exact : ∀ x y, binary64 (x * y)%Qc -> float_mul x y = Num (x * y)%Qc;
  (** [a * b] when an operand is neither int64 nor float64: element-wise
      Python [*] *)
  object_mul : Series -> Series -> result Series;
  (** [column.astype(float)] on a non-numeric column *)
  object_astype_float : Series -> result Series;
  (** [stats.chi2_contingency(tab)]: statistic, p-value, degrees of freedom *)
  chi2_contingency : Crosstab -> result (float * float * Z);
  (** a table with no row or no column: "No data; observed has size 0" *)
  chi2_contingency_empty :
    ∀ tab, ct_index tab = [] ∨ ct_columns tab = [] ->
           chi2_contingency tab = Raise ValueError;
  (** [sm.OLS(endog, exog).fit()] on a design given column by column, read
      through [params.get('DiscountPercent', nan)] and [pvalues.get(...)] *)
  ols_fit : list (nat * Qc) -> list (string * list (nat * Qc)) -> result (float * float);
  (** [frame.corr().iloc[0,1]] of a two-column frame *)
  corr : Series -> Series -> result float;
  (** lines 29-33: plotting the bars, labelling and saving the figure *)
  render_bar : Plot -> result unit;
  (** a series with no entry has nothing to plot: the bar plot raises *)
  render_bar_empty : ∀ p, plot_bars p = [] -> ∃ e, render_bar p = Raise e;
  (** [groupby(key)[val].sum()] when [val] is not numeric *)
  object_group_sum : Series -> Series -> result (list (cell * cell));
  (** [groupby(key)[val].mean() * 100] when [val] is not numeric *)
  object_group_rate : Series -> Series -> result (list (cell * cell));
  (** a grouped aggregate has one entry per present key, keys sorted *)
  object_group_sum_keys :
    ∀ key val r, object_group_sum key val = Ok r -> r.*1 = sorted_labels (values key);
  object_group_rate_keys :
    ∀ key val r, object_group_rate key val = Ok r -> r.*1 = sorted_labels (values key);
  (** lines 83-128: the text of the data-quality report, given the outlier
      counts *)
  quality_report : DataFrame -> list (string * nat) -> result string;
  (** ["{:.3f}"], ["{:.4f}"], ["{:.4g}"] and [str] of an integer *)
  fmt_3f : float -> string;
  fmt_4f : float -> string;
  fmt_4g : float -> string;
  fmt_int : Z -> string
}.

(** ** Enrichment (main, lines 66-80) *)

Definition bins : list Qc := [qz 18; qz 25; qz 35; qz 45; qz 55; qz 200].

Definition labels : list string := ["18-25"; "26-35"; "36-45"; "46-55"; "55+"].

(** [bins.searchsorted(x, side="left")] on sorted edges: the number of
    leading edges strictly below [x]. *)
Fixpoint searchsorted_left (edges : list Qc) (x : Qc) : nat :=
  match edges with
  | [] => 0
  | b :: rest => if bool_decide (b < x)%Qc then S (searchsorted_left rest x) else 0
  end.

(** One value through [pd.cut(..., right=True)] with the default
    [include_lowest=False]: position 0 (at or below the first edge) and
    position [len(bins)] (above the last edge) are masked to NaN, position
    [i] takes label [i-1]. *)
Definition cut_value (edges : list Qc) (labs : list string) (c : cell) : cell :=
  match c with
  | Num x =>
      let i := searchsorted_left edges x in
      if bool_decide (i = 0) || bool_decide (i = length edges) then NaN
      else match labs !! (i - 1) with
           | Some l => Str l
           | None => NaN
           end
  | _ => NaN
  end.

(** What [pd.cut] checks on its edges before it looks at the data: they
    must not decrease, and must not repeat (two equal edges alone pass). *)
Definition bins_ok (edges : list Qc) : bool :=
  bool_decide (Sorted Qcle edges)
  && (bool_decide (NoDup edges) || bool_decide (length edges = 2)).

(** What [pd.cut] checks on its labels after binning: distinct labels, one
    per bin. *)
Definition labels_ok (edges : list Qc) (labs : list string) : bool :=
  bool_decide (NoDup labs) && bool_decide (length edges = S (length labs)).

(** [pd.cut(s, bins=edges, labels=labs, right=True)]: bad edges raise
    ValueError, comparing a non-numeric column with the numeric edges raises
    TypeError, bad labels raise ValueError, in that order. *)
Definition cut (s : Series) (edges : list Qc) (labs : list string) : result Series :=
  if negb (bins_ok edges) then Raise ValueError
  else if negb (is_number (dtype_of s)) then Raise TypeError
  else if negb (labels_ok edges labs) then Raise ValueError
  else Ok (mkSeries Category (map (cut_value edges labs) (values s))).

(** The exact product of two numbers, missing when either is missing *)
Definition mul_cell (a b : cell) : cell :=
  match a, b with
  | Num x, Num y => Num (x * y)%Qc
  | _, _ => NaN
  end.

(** int64 arithmetic: the result is reduced modulo 2^64 into
    [-2^63, 2^63), silently. *)
Definition wrap_int64 (z : Z) : Z := ((z + 2 ^ 63) mod 2 ^ 64 - 2 ^ 63)%Z.

(** The product of two int64 values *)
Definition mul_int64 (a b : cell) : cell :=
  match a, b with
  | Num x, Num y => Num (qz (wrap_int64 (Qfloor x * Qfloor y)))
  | _, _ => NaN
  end.

Section Program.
Context {E : Externals}.

(** The product of two float64 values; NaN propagates *)
Definition mul_float64 (a b : cell) : cell :=
  match a, b with
  | Num x, Num y => float_mul x y
  | _, _ => NaN
  end.

(** [a * b] on two columns of one table: int64 times int64 stays int64, a
    float64 operand makes the product float64 *)
Definition series_mul (a b : Series) : result Series :=
  match dtype_of a, dtype_of b with
  | Int64, Int64 => Ok (mkSeries Int64 (zip_with mul_int64 (values a) (values b)))
  | Int64, Float64 | Float64, Int64 | Float64, Float64 =>
      Ok (mkSeries Float64 (zip_with mul_float64 (values a) (values b)))
  | _, _ => object_mul a b
  end.

Local Open Scope prog_scope.

(** lines 67-71 *)
Definition enrich_order_date : M DataFrame unit :=
  df <- get ;;
  when (has_column "OrderDate" df)
    match getitem df "OrderDate" with
    | Some col =>
        match to_datetime col with
        | Ok parsed => modify (fun d => setitem d "OrderDate" parsed)
        | Raise _ => ret tt
        end
    | None => ret tt
    end.

(** lines 72-78 *)
Definition enrich_age_group : M DataFrame unit :=
  df <- get ;;
  when (has_column "Age" df)
    match getitem df "Age" with
    | Some age =>
        match cut age bins labels with
        | Ok grouped => modify (fun d => setitem d "AgeGroup" grouped)
        | Raise _ => ret tt
        end
    | None => ret tt
    end.

(** lines 79-80 *)
Definition enrich_revenue : M DataFrame unit :=
  df <- get ;;
  when (has_column "Price" df && has_column "Quantity" df
        && negb (has_column "Revenue" df))
    match getitem df "Price", getitem df "Quantity" with
    | Some price, Some quantity =>
        revenue <- lift (series_mul price quantity) ;;
        modify (fun d => setitem d "Revenue" revenue)
    | _, _ => raise KeyError
    end.

Definition enrich : M DataFrame unit :=
  enrich_order_date ;; enrich_age_group ;; enrich_revenue.

(** ** Quality profiler: the IQR rule (lines 35-39 and 89-90) *)

(** [s.quantile(q)] with the default linear interpolation: on the sorted
    values, the virtual position is [(n-1)*q]; the result interpolates
    between its two neighbours.  An empty series gives NaN. *)
Definition quantile (s : list Qc) (q : Qc) : float :=
  let sorted := merge_sort Qcle s in
  let h := (qz (Z.of_nat (length s - 1)) * q)%Qc in
  let lo := Z.to_nat (Qfloor h) in
  let frac := (h - qz (Z.of_nat lo))%Qc in
  match sorted !! lo with
  | None => None
  | Some a =>
      match sorted !! S lo with
      | Some b => Some (a + frac * (b - a))%Qc
      | None => Some a
      end
  end.

Definition q025 : Qc := Q2Qc (1 # 4).
Definition q075 : Qc := Q2Qc (3 # 4).
Definition k15 : Qc := Q2Qc (3 # 2).

(** [lower, upper] of line 38, when both quartiles are numbers *)
Definition iqr_bounds (s : list Qc) : option (Qc * Qc) :=
  match quantile s q025, quantile s q075 with
  | Some q1, Some q3 =>
      let iqr := (q3 - q1)%Qc in
      Some ((q1 - k15 * iqr)%Qc, (q3 + k15 * iqr)%Qc)
  | _, _ => None
  end.

Definition outside (lower upper x : Qc) : Prop := (x < lower)%Qc ∨ (upper < x)%Qc.

#[global] Instance outside_dec lower upper x : Decision (outside lower upper x).
Proof. unfold outside. apply _. Defined.

(** [((s < lower) | (s > upper)).sum()]; comparisons with NaN bounds are
    all false. *)
Definition iqr_outliers_count (s : list Qc) : nat :=
  match iqr_bounds s with
  | Some (lower, upper) => length (filter (outside lower upper) s)
  | None => 0
  end.

(** [column.dropna()] of a numeric column, as the numbers it holds *)
Definition dropna_numbers (vs : list cell) : list Qc :=
  omap (fun c => match c with Num q => Some q | _ => None end) vs.

(** lines 89-90 *)
Definition numeric_cols (df : DataFrame) : list string :=
  (filter (fun c => is_np_number (dtype_of c.2) = true) (df_columns df)).*1.

Definition outlier_counts (df : DataFrame) : list (string * nat) :=
  omap (fun c => s ← getitem df c;
                 Some (c, iqr_outliers_count (dropna_numbers (values s))))
       (numeric_cols df).

(** ** Row selection *)

(** [l[keep]] with a boolean mask *)
Fixpoint select {A} (keep : list bool) (l : list A) : list A :=
  match keep, l with
  | k :: keep', x :: l' => if k then x :: select keep' l' else select keep' l'
  | _, _ => []
  end.

(** [df[keep]]: the rows whose mask is true, with their labels *)
Definition filter_rows (keep : list bool) (df : DataFrame) : DataFrame :=
  mkDataFrame (select keep (df_index df))
    (map (fun c => (c.1, mkSeries (dtype_of c.2) (select keep (values c.2))))
         (df_columns df)).

(** The mask of the rows that have a value in every column of [subset] *)
Fixpoint notna_mask (df : DataFrame) (subset : list string) : result (list bool) :=
  match subset with
  | [] => Ok (map (fun _ => true) (df_index df))
  | n :: rest =>
      match getitem df n, notna_mask df rest with
      | Some s, Ok m => Ok (zip_with andb (map notna (values s)) m)
      | None, _ => Raise KeyError
      | _, Raise e => Raise e
      end
  end.

(** [df.dropna(subset=subset)] *)
Definition dropna_subset (df : DataFrame) (subset : list string) : result DataFrame :=
  match notna_mask df subset with
  | Ok m => Ok (filter_rows m df)
  | Raise e => Raise e
  end.

(** ** Contingency tables and the chi-square test (lines 41-47) *)

Definition count_pairs (obs : list (cell * cell)) (r c : cell) : nat :=
  length (filter (fun o => o = (r, c)) obs).

(** [pd.crosstab(a, b)]: rows are the values of [a], columns the values of
    [b], over the rows where both are present; each cell counts a pair. *)
Definition crosstab (a b : Series) : Crosstab :=
  let obs := filter (fun o => o.1 ≠ NaN ∧ o.2 ≠ NaN) (zip (values a) (values b)) in
  let rows := sorted_labels obs.*1 in
  let cols := sorted_labels obs.*2 in
  mkCrosstab rows cols (map (fun r => map (count_pairs obs r) cols) rows).

(** [tab.sum(axis=1)]: one total per row *)
Definition row_sums (tab : Crosstab) : list nat := map sum_list (ct_counts tab).

(** [tab.sum(axis=0)]: one total per column *)
Definition col_sums (tab : Crosstab) : list nat :=
  foldr (zip_with Nat.add) (map (fun _ => 0) (ct_columns tab)) (ct_counts tab).

(** [(tab < min_count).any().any()] *)
Definition any_below (tab : Crosstab) (min_count : nat) : bool :=
  existsb (existsb (fun n => bool_decide (n < min_count)%nat)) (ct_counts tab).

(** [tab.loc[keep_rows, keep_cols]] with two boolean masks *)
Definition loc_masks (tab : Crosstab) (keep_rows keep_cols : list bool) : Crosstab :=
  mkCrosstab (select keep_rows (ct_index tab)) (select keep_cols (ct_columns tab))
    (map (select keep_cols) (select keep_rows (ct_counts tab))).

(** lines 43-45: the table after the guarded pruning *)
Definition prune_if_sparse (tab : Crosstab) (min_count : nat) : Crosstab :=
  if any_below tab min_count then
    loc_masks tab (map (fun n => bool_decide (min_count ≤ n)%nat) (row_sums tab))
                  (map (fun n => bool_decide (min_count ≤ n)%nat) (col_sums tab))
  else tab.

Definition chi_square_test (df : DataFrame) (col_a col_b : string) (min_count : nat)
  : result (float * float * Z * Crosstab) :=
  match getitem df col_a, getitem df col_b with
  | Some a, Some b =>
      let tab := prune_if_sparse (crosstab a b) min_count in
      match chi2_contingency tab with
      | Ok (chi2, p, dof) => Ok (chi2, p, dof, tab)
      | Raise e => Raise e
      end
  | _, _ => Raise KeyError
  end.

(** ** Grouped aggregates and bar charts (lines 28-33 and 134-149) *)

(** The values of [vals] per present key, keys sorted *)
Definition groups (keys vals : list cell) : list (cell * list cell) :=
  map (fun k => (k, (filter (fun kv => kv.1 = k) (zip keys vals)).*2))
      (sorted_labels keys).

Definition sum_numbers (vs : list cell) : Qc :=
  foldr Qcplus (qz 0) (dropna_numbers vs).

(** [.sum()] of one group: missing values are skipped, an empty sum is 0 *)
Definition agg_sum (vs : list cell) : cell := Num (sum_numbers vs).

(** [.mean() * 100] of one group: missing values are skipped, a group with
    no value gives NaN *)
Definition agg_rate (vs : list cell) : cell :=
  match dropna_numbers vs with
  | [] => NaN
  | ns => Num (sum_numbers vs / qz (Z.of_nat (length ns)) * qz 100)%Qc
  end.

(** [df.groupby(key)[val].sum()] *)
Definition group_sum (key val : Series) : result (list (cell * cell)) :=
  if is_number (dtype_of val)
  then Ok (map (fun g => (g.1, agg_sum g.2)) (groups (values key) (values val)))
  else object_group_sum key val.

(** [df.groupby(key)[val].mean() * 100] *)
Definition group_rate (key val : Series) : result (list (cell * cell)) :=
  if is_number (dtype_of val)
  then Ok (map (fun g => (g.1, agg_rate g.2)) (groups (values key) (values val)))
  else object_group_rate key val.

(** The order of [sort_values(ascending=False)]: larger values first,
    missing values last. *)
Definition value_ge (a b : cell * cell) : Prop :=
  match a.2, b.2 with
  | _, NaN => True
  | NaN, _ => False
  | Num x, Num y => (y ≤ x)%Qc
  | Str s, Str t => String.leb t s = true
  | Str _, Num _ => True
  | Num _, Str _ => False
  end.

#[global] Instance value_ge_dec : RelDecision value_ge.
Proof. intros [? [|x|s]] [? [|y|t]]; unfold value_ge; simpl; apply _. Defined.

(** One entry put in its place among entries already in order: in front of
    the first entry that is not larger than it. *)
Fixpoint insert_desc (x : cell * cell) (l : list (cell * cell)) : list (cell * cell) :=
  match l with
  | [] => [x]
  | y :: rest =>
      if decide (value_ge x y) then x :: y :: rest else y :: insert_desc x rest
  end.

(** [series.sort_values(ascending=False)]: entries of equal value keep the
    order they had in the series, as pandas' sort does on the short series
    of this program. *)
Definition sort_desc (s : list (cell * cell)) : list (cell * cell) :=
  foldr insert_desc [] s.

(** ** The state of a run: files written and the locals of [main] *)

Definition TestResult : Type := string * float * float * Z.

Record State : Type := mkState {
  plots : list Plot;
  corr_line : string;
  results : list TestResult;
  reg_line : string;
  reports : list (string * string)
}.

Definition init_state : State := mkState [] "" [] "" [].

Definition add_plot (p : Plot) (st : State) : State :=
  mkState (plots st ++ [p]) (corr_line st) (results st) (reg_line st) (reports st).

Definition set_corr_line (l : string) (st : State) : State :=
  mkState (plots st) l (results st) (reg_line st) (reports st).

Definition add_result (r : TestResult) (st : State) : State :=
  mkState (plots st) (corr_line st) (results st ++ [r]) (reg_line st) (reports st).

Definition set_reg_line (l : string) (st : State) : State :=
  mkState (plots st) (corr_line st) (results st) l (reports st).

Definition write_file (path text : string) (st : State) : State :=
  mkState (plots st) (corr_line st) (results st) (reg_line st)
          (reports st ++ [(path, text)]).

(** lines 28-33 *)
Definition save_bar (series : list (cell * cell)) (title ylabel path : string)
  : M State unit :=
  let p := mkPlot path title ylabel (sort_desc series) in
  lift (render_bar p) ;; modify (add_plot p).

(** lines 134-136 *)
Definition revenue_by_category (df : DataFrame) : M State unit :=
  when (issubset ["Revenue"; "Category"] df)
    match getitem df "Category", getitem df "Revenue" with
    | Some category, Some revenue =>
        rev_cat <- lift (group_sum category revenue) ;;
        save_bar (sort_desc rev_cat) "Revenue by Category" "Revenue"
                 "visuals/plots/revenue_by_category.png"
    | _, _ => raise KeyError
    end.

(** lines 140-142 *)
Definition return_rate_by_category (df : DataFrame) : M State unit :=
  when (has_column "Category" df)
    match getitem df "Category", getitem df "Returned" with
    | Some category, Some returned =>
        rr_cat <- lift (group_rate category returned) ;;
        save_bar rr_cat "Return Rate by Category" "Return Rate (%)"
                 "visuals/plots/return_rate_by_category.png"
    | _, _ => raise KeyError
    end.

(** lines 143-146 *)
Definition return_rate_by_brand (df : DataFrame) : M State unit :=
  when (has_column "Brand" df)
    match getitem df "Brand", getitem df "Returned" with
    | Some brand, Some returned =>
        rr_brand <- lift (group_rate brand returned) ;;
        let top := take 20 (sort_desc rr_brand) in
        save_bar top "Return Rate by Brand (Top 20)" "Return Rate (%)"
                 "visuals/plots/return_rate_by_brand.png"
    | _, _ => raise KeyError
    end.

(** lines 147-149 *)
Definition return_rate_by_device (df : DataFrame) : M State unit :=
  when (has_column "Device" df)
    match getitem df "Device", getitem df "Returned" with
    | Some device, Some returned =>
        rr_device <- lift (group_rate device returned) ;;
        save_bar rr_device "Return Rate by Device" "Return Rate (%)"
                 "visuals/plots/return_rate_by_device.png"
    | _, _ => raise KeyError
    end.

(** lines 139-149 *)
Definition return_rates (df : DataFrame) : M State unit :=
  when (has_column "Returned" df)
    (return_rate_by_category df ;;
     return_rate_by_brand df ;;
     return_rate_by_device df).

(** lines 152-155 *)
Definition correlation (df : DataFrame) : M State unit :=
  when (issubset ["DiscountPercent"; "Quantity"] df)
    (d <- lift (dropna_subset df ["DiscountPercent"; "Quantity"]) ;;
     match getitem d "DiscountPercent", getitem d "Quantity" with
     | Some x, Some y =>
         c <- lift (corr x y) ;;
         modify (set_corr_line ("Correlation(DiscountPercent, Quantity) = " +:+ fmt_3f c))
     | _, _ => raise KeyError
     end).

(** ** Hypothesis tests (lines 158-189) *)

(** The two lines shared by the four categorical tests: the test on the
    rows that have both values, then [results.append(...)]. *)
Definition run_chi_square (d : DataFrame) (col_a col_b name : string) : M State unit :=
  rows <- lift (dropna_subset d [col_a; col_b]) ;;
  r <- lift (chi_square_test rows col_a col_b 5) ;;
  modify (add_result (name, r.1.1.1, r.1.1.2, r.1.2)).

(** lines 161-163 *)
Definition h1_device (df : DataFrame) : M State unit :=
  when (issubset ["Device"; "Returned"] df)
    (run_chi_square df "Device" "Returned" "Device vs Returned (Chi-square)").

(** lines 166-168 *)
Definition h2_region (df : DataFrame) : M State unit :=
  when (issubset ["Region"; "DeliveryStatus"] df)
    (run_chi_square df "Region" "DeliveryStatus" "Region vs DeliveryStatus (Chi-square)").

(** lines 171-173 *)
Definition h3_age_group (df : DataFrame) : M State unit :=
  when (issubset ["AgeGroup"; "Returned"] df)
    (run_chi_square df "AgeGroup" "Returned" "AgeGroup vs Returned (Chi-square)").

Fixpoint insert_by_count (x : cell * nat) (l : list (cell * nat)) : list (cell * nat) :=
  match l with
  | [] => [x]
  | y :: rest =>
      if bool_decide (y.2 ≤ x.2)%nat then x :: y :: rest
      else y :: insert_by_count x rest
  end.

(** The distinct values of a list, in the order of their first appearance *)
Fixpoint unique (l : list cell) : list cell :=
  match l with
  | [] => []
  | x :: rest => x :: filter (fun y => y ≠ x) (unique rest)
  end.

(** [column.value_counts()]: the present values with their counts, most
    frequent first, ties in order of first appearance. *)
Definition value_counts (vs : list cell) : list (cell * nat) :=
  let present := filter (fun c => c ≠ NaN) vs in
  foldr insert_by_count []
    (map (fun v => (v, length (filter (fun c => c = v) present))) (unique present)).

(** [column.isin(keys)] *)
Definition isin (vs keys : list cell) : list bool :=
  map (fun c => bool_decide (c ∈ keys)) vs.

(** lines 176-181 *)
Definition h4_top_brands (df : DataFrame) : M State unit :=
  when (issubset ["Brand"; "Returned"] df)
    match getitem df "Brand" with
    | Some brand =>
        let top_brands := (take 15 (value_counts (values brand))).*1 in
        let sub := filter_rows (isin (values brand) top_brands) df in
        when (bool_decide (0 < length (df_index sub))%nat)
          (run_chi_square sub "Brand" "Returned" "Top Brands vs Returned (Chi-square)")
    | None => raise KeyError
    end.

(** [column.astype(float)] *)
Definition astype_float (s : Series) : result Series :=
  if is_number (dtype_of s) then Ok (mkSeries Float64 (values s))
  else object_astype_float s.

(** [series.dropna()] of a float series, with the row labels it keeps *)
Definition dropna_indexed (labelled : list (nat * cell)) : list (nat * Qc) :=
  omap (fun lc => match lc.2 with Num q => Some (lc.1, q) | _ => None end) labelled.

Fixpoint lookup_label (i : nat) (s : list (nat * Qc)) : option Qc :=
  match s with
  | [] => None
  | (j, q) :: rest => if decide (j = i) then Some q else lookup_label i rest
  end.

(** [series.loc[wanted]] with a list of labels (labels of the series are
    distinct): a label the series does not have raises KeyError. *)
Fixpoint loc (s : list (nat * Qc)) (wanted : list nat) : result (list (nat * Qc)) :=
  match wanted with
  | [] => Ok []
  | i :: rest =>
      match lookup_label i s, loc s rest with
      | Some q, Ok r => Ok ((i, q) :: r)
      | None, _ => Raise KeyError
      | _, Raise e => Raise e
      end
  end.

(** What [add_constant] takes for a column that is a constant already: all
    its values are equal and not zero ([np.ptp(s) == 0 and np.any(s != 0)]);
    on no value at all the test fails. *)
Definition is_nonzero_constant (xs : list Qc) : bool :=
  match xs with
  | [] => false
  | v :: rest => bool_decide (v ≠ 0%Qc) && forallb (fun w => bool_decide (w = v)) rest
  end.

(** [sm.add_constant(x)] on a series named [name], with the default
    [has_constant='skip']: a column "const" of ones goes in front, unless
    the series is a non-zero constant, which is then left as the only
    column. *)
Definition add_constant (name : string) (x : list (nat * Qc))
  : list (string * list (nat * Qc)) :=
  if is_nonzero_constant x.*2 then [(name, x)]
  else [("const", map (fun row => (row.1, 1%Qc)) x); (name, x)].

(** lines 184-189 *)
Definition h5_regression (df : DataFrame) : M State unit :=
  when (issubset ["DiscountPercent"; "Quantity"] df)
    match getitem df "DiscountPercent", getitem df "Quantity" with
    | Some discount, Some quantity =>
        x <- lift (astype_float discount) ;;
        y <- lift (astype_float quantity) ;;
        let y_present := dropna_indexed (zip (df_index df) (values y)) in
        let x_present := dropna_indexed (zip (df_index df) (values x)) in
        x_aligned <- lift (loc x_present y_present.*1) ;;
        m <- lift (ols_fit y_present (add_constant "DiscountPercent" x_aligned)) ;;
        modify (set_reg_line ("Quantity ~ DiscountPercent: coef=" +:+ fmt_4f m.1
                              +:+ ", p=" +:+ fmt_4g m.2))
    | _, _ => raise KeyError
    end.

(** lines 132-189, in program order *)
Definition analyses (df : DataFrame) : M State unit :=
  revenue_by_category df ;;
  return_rates df ;;
  correlation df ;;
  h1_device df ;;
  h2_region df ;;
  h3_age_group df ;;
  h4_top_brands df ;;
  h5_regression df.

(** ** The hypothesis report (lines 192-203) *)

Definition alpha : Qc := Q2Qc (5 # 100).

(** [p < 0.05]; a comparison with NaN is false *)
Definition p_below_alpha (p : float) : bool :=
  match p with
  | Some q => bool_decide (q < alpha)%Qc
  | None => false
  end.

(** line 195 *)
Definition decision (p : float) : string :=
  if p_below_alpha p then "Reject H0" else "Fail to reject H0".

(** line 196 *)
Definition format_result (r : TestResult) : string :=
  "- **" +:+ r.1.1.1 +:+ "** → chi2=" +:+ fmt_3f r.1.1.2 +:+ ", dof=" +:+ fmt_int r.2
  +:+ ", p=" +:+ fmt_4g r.1.2 +:+ " → **" +:+ decision r.1.2 +:+ "**".

Definition newline : string := String (Ascii.ascii_of_nat 10) "".

Definition report_header : string := "# 🧪 Hypothesis Testing (Auto)".

Definition no_eligible_placeholder : string :=
  "# 🧪 Hypothesis Testing" +:+ newline +:+ "(No eligible columns found.)".

(** lines 192-200 *)
Definition hyp_lines (st : State) : list string :=
  [report_header]
  ++ (match results st with
      | [] => []
      | rs => map format_result rs
      end)
  ++ (if decide (corr_line st = "") then [] else ["- " +:+ corr_line st])
  ++ (if decide (reg_line st = "") then [] else ["- " +:+ reg_line st]).

(** line 203: the text written to the hypothesis report *)
Definition hypothesis_text (st : State) : string :=
  match hyp_lines st with
  | [] => no_eligible_placeholder
  | ls => String.concat newline ls
  end.

Definition insight_summary : string :=
  "# 🔑 Insight Summary (Top 5–8)

Fill this section using the generated plots in `visuals/plots/` and the stats in `reports/hypothesis_testing.md`.

- Example insights to consider:
  - Categories with highest **revenue** and **return rate**
  - **Device** with higher return tendency
  - **Regions** with late deliveries
  - **Discount** impact on **quantity** or **returns**
  - **Top brands** by return rate

Attach plot filenames next to each insight and add a specific recommended action.
".

(** lines 192-219 *)
Definition write_reports : M State unit :=
  st <- get ;;
  modify (write_file "reports/hypothesis_testing.md" (hypothesis_text st)) ;;
  modify (write_file "reports/insight_summary.md" insight_summary).

(** [main] on the table [pd.read_csv] returned.  Paths are relative to the
    base directory. *)
Definition main (df0 : DataFrame) : M State unit :=
  match enrich df0 with
  | (Ok _, df) =>
      dq <- lift (quality_report df (outlier_counts df)) ;;
      modify (write_file "reports/data_quality_report.md" dq) ;;
      analyses df ;;
      write_reports
  | (Raise e, _) => raise e
  end.

End Program.

(** A library double for closed examples: dates do not parse, non-numeric
    arithmetic raises, float products are exact, a chart with no bar and a
    test on an empty table raise, and the statistical calls otherwise answer
    with fixed numbers. *)
Definition fixture_chi2 (tab : Crosstab) : result (float * float * Z) :=
  match ct_index tab, ct_columns tab with
  | _ :: _, _ :: _ => Ok (Some (qz 0), Some (qz 1), 0%Z)
  | _, _ => Raise ValueError
  end.

Definition fixture_render (p : Plot) : result unit :=
  match plot_bars p with
  | [] => Raise IndexError
  | _ => Ok tt
  end.

Lemma fixture_chi2_empty (tab : Crosstab) :
  ct_index tab = [] ∨ ct_columns tab = [] -> fixture_chi2 tab = Raise ValueError.
Proof.
  unfold fixture_chi2. intros [-> | ->]; [done|]. by destruct (ct_index tab).
Qed.

Lemma fixture_render_empty (p : Plot) :
  plot_bars p = [] -> ∃ e, fixture_render p = Raise e.
Proof. unfold fixture_render. intros ->. by eexists. Qed.

Definition fixture : Externals := {|
  to_datetime := fun _ => Raise ValueError;
  float_mul := fun x y => Num (x * y)%Qc;
  float_mul_exact := fun x y _ => eq_refl;
  object_mul := fun _ _ => Raise TypeError;
  object_astype_float := fun _ => Raise ValueError;
  chi2_contingency := fixture_chi2;
  chi2_contingency_empty := fixture_chi2_empty;
  ols_fit := fun _ _ => Ok (Some (qz 0), Some (qz 1));
  corr := fun _ _ => Ok None;
  render_bar := fixture_render;
  render_bar_empty := fixture_render_empty;
  object_group_sum := fun _ _ => Raise TypeError;
  object_group_rate := fun _ _ => Raise TypeError;
  object_group_sum_keys := fun _ _ r (H : Raise TypeError = Ok r) =>
    match H in _ = y return match y with Ok _ => _ | Raise _ => True end with
    | eq_refl => I
    end;
  object_group_rate_keys := fun _ _ r (H : Raise TypeError = Ok r) =>
    match H in _ = y return match y with Ok _ => _ | Raise _ => True end with
    | eq_refl => I
    end;
  quality_report := fun _ _ => Ok "";
  fmt_3f := fun _ => "";
  fmt_4f := fun _ => "";
  fmt_4g := fun _ => "";
  fmt_int := fun _ => ""
|}.

(** ** The statements of the specification, and sample tables *)

(** The age bands in the specification's words: closed at 18, open above 55. *)
Definition age_bands_as_specified (band : cell -> cell) : Prop :=
  ∀ x : Qc,
    ((qz 18 ≤ x ∧ x ≤ qz 25)%Qc -> band (Num x) = Str "18-25") ∧
    ((qz 25 < x ∧ x ≤ qz 35)%Qc -> band (Num x) = Str "26-35") ∧
    ((qz 35 < x ∧ x ≤ qz 45)%Qc -> band (Num x) = Str "36-45") ∧
    ((qz 45 < x ∧ x ≤ qz 55)%Qc -> band (Num x) = Str "46-55") ∧
    ((qz 55 < x)%Qc -> band (Num x) = Str "55+") ∧
    ((x < qz 18)%Qc -> band (Num x) = NaN).

(** The frame of the enrichment in the specification's words: no column
    that was there before, other than the date column, changes. *)
Definition enrichment_changes_only_dates : Prop :=
  ∀ (E : Externals) (df : DataFrame) (c : string),
    c ∈ column_names df -> c ≠ "OrderDate" ->
    getitem (enrich df).2 c = getitem df c.

Definition table_age_with_group : DataFrame :=
  mkDataFrame [0]
    [("Age", mkSeries Float64 [Num (qz 30)]);
     ("AgeGroup", mkSeries Object [Str "adult"])].

Definition table_ages : DataFrame :=
  mkDataFrame [0; 1; 2; 3; 4; 5]
    [("Age", mkSeries Float64
               [Num (qz 24); Num (qz 25); Num (qz 26); Num (qz 60); Num (qz 17); NaN])].

Definition table_price_quantity : DataFrame :=
  mkDataFrame [0; 1]
    [("Price", mkSeries Int64 [Num (qz 10); Num (qz 20)]);
     ("Quantity", mkSeries Int64 [Num (qz 2); Num (qz 3)])].

Definition table_with_revenue : DataFrame :=
  mkDataFrame [0; 1]
    [("Price", mkSeries Int64 [Num (qz 10); Num (qz 20)]);
     ("Quantity", mkSeries Int64 [Num (qz 2); Num (qz 3)]);
     ("Revenue", mkSeries Float64 [Num (qz 7); NaN])].

(** The two additive properties of the outlier count in the specification's
    words: the bounds are those of the column before the row is added. *)
Definition adding_inside_keeps_count : Prop :=
  ∀ (s : list Qc) (v lower upper : Qc),
    iqr_bounds s = Some (lower, upper) -> (lower < v ∧ v < upper)%Qc ->
    iqr_outliers_count (s ++ [v]) = iqr_outliers_count s.

Definition adding_above_adds_one : Prop :=
  ∀ (s : list Qc) (v lower upper : Qc),
    iqr_bounds s = Some (lower, upper) -> (upper < v)%Qc ->
    iqr_outliers_count (s ++ [v]) = S (iqr_outliers_count s).

Definition column_0112 : list Qc := [qz 0; qz 1; qz 1; qz 2].

Definition column_stable : list Qc :=
  [qz 0; qz 2; qz 2; qz 2; qz 4; qz 4; qz 4; qz 6].

(** ** The gated analyses, one by one *)

Inductive analysis : Type :=
  | RevenueByCategory
  | ReturnRateByCategory
  | ReturnRateByBrand
  | ReturnRateByDevice
  | Correlation
  | H1Device
  | H2Region
  | H3AgeGroup
  | H4TopBrands
  | H5Regression.

#[global] Instance analysis_eq_dec : EqDecision analysis.
Proof. solve_decision. Defined.

(** The columns an analysis is gated on *)
Definition required (a : analysis) : list string :=
  match a with
  | RevenueByCategory => ["Revenue"; "Category"]
  | ReturnRateByCategory => ["Returned"; "Category"]
  | ReturnRateByBrand => ["Returned"; "Brand"]
  | ReturnRateByDevice => ["Returned"; "Device"]
  | Correlation => ["DiscountPercent"; "Quantity"]
  | H1Device => ["Device"; "Returned"]
  | H2Region => ["Region"; "DeliveryStatus"]
  | H3AgeGroup => ["AgeGroup"; "Returned"]
  | H4TopBrands => ["Brand"; "Returned"]
  | H5Regression => ["DiscountPercent"; "Quantity"]
  end.

(** The branch of [main] that belongs to an analysis, with the conditions
    around it *)
Definition run_analysis {E : Externals} (a : analysis) (df : DataFrame) : M State unit :=
  match a with
  | RevenueByCategory => revenue_by_category df
  | ReturnRateByCategory => when (has_column "Returned" df) (return_rate_by_category df)
  | ReturnRateByBrand => when (has_column "Returned" df) (return_rate_by_brand df)
  | ReturnRateByDevice => when (has_column "Returned" df) (return_rate_by_device df)
  | Correlation => correlation df
  | H1Device => h1_device df
  | H2Region => h2_region df
  | H3AgeGroup => h3_age_group df
  | H4TopBrands => h4_top_brands df
  | H5Regression => h5_regression df
  end.

Definition all_analyses : list analysis :=
  [RevenueByCategory; ReturnRateByCategory; ReturnRateByBrand; ReturnRateByDevice;
   Correlation; H1Device; H2Region; H3AgeGroup; H4TopBrands; H5Regression].

(** Branches run one after the other; the first exception ends the run. *)
Fixpoint run_all {E : Externals} (l : list analysis) (df : DataFrame) : M State unit :=
  match l with
  | [] => ret tt
  | a :: rest => bind (run_analysis a df) (fun _ => run_all rest df)
  end.

(** What an analysis leaves behind *)
Inductive output : Type :=
  | Chart (path : string)
  | Test (name : string)
  | CorrLine
  | RegLine.

Definition output_of (a : analysis) : output :=
  match a with
  | RevenueByCategory => Chart "visuals/plots/revenue_by_category.png"
  | ReturnRateByCategory => Chart "visuals/plots/return_rate_by_category.png"
  | ReturnRateByBrand => Chart "visuals/plots/return_rate_by_brand.png"
  | ReturnRateByDevice => Chart "visuals/plots/return_rate_by_device.png"
  | Correlation => CorrLine
  | H1Device => Test "Device vs Returned (Chi-square)"
  | H2Region => Test "Region vs DeliveryStatus (Chi-square)"
  | H3AgeGroup => Test "AgeGroup vs Returned (Chi-square)"
  | H4TopBrands => Test "Top Brands vs Returned (Chi-square)"
  | H5Regression => RegLine
  end.

Definition test_name (r : TestResult) : string := r.1.1.1.


(** The state [st'] is [st] plus one output *)
Definition produced (o : output) (st st' : State) : Prop :=
  match o with
  | Chart path => ∃ p, plot_path p = path ∧ st' = add_plot p st
  | Test name => ∃ chi2 pv dof, st' = add_result (name, chi2, pv, dof) st
  | CorrLine => ∃ l, st' = set_corr_line l st
  | RegLine => ∃ l, st' = set_reg_line l st
  end.

Definition table_no_known_column : DataFrame :=
  mkDataFrame [0; 1] [("Foo", mkSeries Float64 [Num (qz 1); Num (qz 2)])].

Definition table_brand_all_missing : DataFrame :=
  mkDataFrame [0; 1; 2]
    [("Brand", mkSeries Float64 [NaN; NaN; NaN]);
     ("Returned", mkSeries Int64 [Num (qz 1); Num (qz 0); Num (qz 1)])].

(** Line 45 on its own, without the guard of line 43 *)
Definition prune_marginals (tab : Crosstab) (min_count : nat) : Crosstab :=
  loc_masks tab (map (fun total => bool_decide (min_count ≤ total)%nat) (row_sums tab))
                (map (fun total => bool_decide (min_count ≤ total)%nat) (col_sums tab)).

(** The shape of a cross-tabulation: one row of counts per row label, one
    count per column label, and row labels exactly when there are column
    labels. *)
Definition well_shaped (tab : Crosstab) : Prop :=
  length (ct_counts tab) = length (ct_index tab)
  ∧ Forall (fun row => length row = length (ct_columns tab)) (ct_counts tab)
  ∧ (ct_index tab = [] <-> ct_columns tab = []).

(** The rows of the regression in the specification's words: the rows
    where quantity has a value, and the discount on those same rows. *)
Definition rows_with_quantity (idx : list nat) (quantity : list cell) : list (nat * Qc) :=
  dropna_indexed (zip idx quantity).

Definition discount_on_rows (idx : list nat) (discount quantity : list cell)
  : list (nat * Qc) :=
  omap (fun row => match row.2.2, row.2.1 with
                   | Num _, Num d => Some (row.1, d)
                   | _, _ => None
                   end)
       (zip idx (zip discount quantity)).

(** What line 189 leaves behind, given the outcome of the fit *)
Definition regression_outcome {E : Externals} (fit : result (float * float)) (st : State)
  : result unit * State :=
  match fit with
  | Ok m => (Ok tt, set_reg_line ("Quantity ~ DiscountPercent: coef=" +:+ fmt_4f m.1
                                  +:+ ", p=" +:+ fmt_4g m.2) st)
  | Raise e => (Raise e, st)
  end.

(** The design of the specification: an intercept and the discount *)
Definition with_intercept (x : list (nat * Qc)) : list (string * list (nat * Qc)) :=
  [("const", map (fun row => (row.1, 1%Qc)) x); ("DiscountPercent", x)].

(** The regression step in the specification's words: whenever both columns
    are there, quantity is fitted on the discount plus an intercept, over
    the rows where quantity has a value. *)
Definition regression_runs_on_quantity_rows : Prop :=
  ∀ (E : Externals) (df : DataFrame) (discount quantity : Series),
    well_formed df ->
    getitem df "DiscountPercent" = Some discount ->
    getitem df "Quantity" = Some quantity ->
    is_number (dtype_of discount) = true -> is_number (dtype_of quantity) = true ->
    ∃ x_rows,
      x_rows.*1 = (rows_with_quantity (df_index df) (values quantity)).*1
      ∧ ∀ st, h5_regression df st
              = regression_outcome
                  (ols_fit (rows_with_quantity (df_index df) (values quantity))
                           (with_intercept x_rows)) st.

Definition table_discount_constant : DataFrame :=
  mkDataFrame [0; 1; 2]
    [("DiscountPercent", mkSeries Int64 [Num (qz 10); Num (qz 10); Num (qz 10)]);
     ("Quantity", mkSeries Int64 [Num (qz 1); Num (qz 2); Num (qz 3)])].

(** The revenue column in the specification's words: whenever price and
    quantity are there and revenue is not, the enrichment adds the
    row-by-row product of the two. *)
Definition revenue_is_price_times_quantity : Prop :=
  ∀ (E : Externals) (df : DataFrame) (price quantity : Series),
    getitem df "Price" = Some price -> getitem df "Quantity" = Some quantity ->
    getitem df "Revenue" = None ->
    ∃ revenue, getitem (enrich df).2 "Revenue" = Some revenue
               ∧ values revenue = zip_with mul_cell (values price) (values quantity).

Definition table_price_overflow : DataFrame :=
  mkDataFrame [0]
    [("Price", mkSeries Int64 [Num (qz (2 ^ 62))]);
     ("Quantity", mkSeries Int64 [Num (qz 4)])].

Definition table_price_float : DataFrame :=
  mkDataFrame [0; 1]
    [("Price", mkSeries Float64 [Num (Q2Qc (5 # 2)); NaN]);
     ("Quantity", mkSeries Int64 [Num (qz 4); Num (qz 1)])].

Definition table_discount_missing : DataFrame :=
  mkDataFrame [0; 1]
    [("DiscountPercent", mkSeries Float64 [Num (qz 10); NaN]);
     ("Quantity", mkSeries Float64 [Num (qz 1); Num (qz 2)])].

Definition table_quantity_missing : DataFrame :=
  mkDataFrame [0; 1; 2]
    [("DiscountPercent", mkSeries Float64 [Num (qz 10); Num (qz 20); Num (qz 30)]);
     ("Quantity", mkSeries Float64 [Num (qz 1); NaN; Num (qz 3)])].

(** ** Further statements about the program *)

(** The two library calls of the enrichment return columns as long as the
    columns they are given. *)
Definition length_preserving {E : Externals} : Prop :=
  (∀ col parsed, to_datetime col = Ok parsed ->
                 length (values parsed) = length (values col))
  ∧ (∀ a b r, object_mul a b = Ok r -> length (values r) = length (values a)).

(** The last step of [quantile], on values already sorted: the value at the
    virtual position [h]. *)
Definition interpolate (sorted : list Qc) (h : Qc) : float :=
  let lo := Z.to_nat (Qfloor h) in
  let frac := (h - qz (Z.of_nat lo))%Qc in
  match sorted !! lo with
  | None => None
  | Some a =>
      match sorted !! S lo with
      | Some b => Some (a + frac * (b - a))%Qc
      | None => Some a
      end
  end.

(** The rows of two columns that have a value in both, as pairs *)
Definition complete_pairs (a b : Series) : list (cell * cell) :=
  filter (fun o => o.1 ≠ NaN ∧ o.2 ≠ NaN) (zip (values a) (values b)).

(** The chart files and the test names a list of analyses can leave, in
    the order of the list *)
Definition chart_paths_of (l : list analysis) : list string :=
  omap (fun a => match output_of a with Chart path => Some path | _ => None end) l.

Definition test_names_of (l : list analysis) : list string :=
  omap (fun a => match output_of a with Test name => Some name | _ => None end) l.

(** ** Quality profiler: shape, missingness, duplicates (lines 83-86) *)

(** line 83: [rows, cols = df.shape] *)
Definition shape (df : DataFrame) : nat * nat :=
  (length (df_index df), length (df_columns df)).

(** [column.isna().mean()]: the share of missing values; the mean over no
    row is NaN. *)
Definition isna_mean (vs : list cell) : cell :=
  match vs with
  | [] => NaN
  | _ => Num (qz (Z.of_nat (length (filter (fun c => c = NaN) vs)))
              / qz (Z.of_nat (length vs)))%Qc
  end.

(** line 84: [df.isna().mean().sort_values(ascending=False) * 100], a
    series indexed by the column names *)
Definition missing_pct (df : DataFrame) : list (cell * cell) :=
  map (fun g => (g.1, mul_cell g.2 (Num (qz 100))))
      (sort_desc (map (fun c => (Str c.1, isna_mean (values c.2))) (df_columns df))).

(** The rows of the table, each as the list of its values across the columns *)
Definition table_rows (df : DataFrame) : list (list (option cell)) :=
  map (fun i => map (fun c => values c.2 !! i) (df_columns df))
      (seq 0 (length (df_index df))).

(** [df.duplicated()]: a row is marked when an equal row came before it
    (two missing values count as equal). *)
Fixpoint duplicated {A} `{EqDecision A} (seen rows : list A) : list bool :=
  match rows with
  | [] => []
  | r :: rest => bool_decide (r ∈ seen) :: duplicated (r :: seen) rest
  end.

(** line 86: [df.duplicated().sum()] *)
Definition dup_count (df : DataFrame) : nat :=
  length (filter (fun b => b = true) (duplicated [] (table_rows df))).

(** ** The pruned table, from the observations *)

(** The labels that at least [min_count] observations carry, sorted;
    [label_of] picks the row label or the column label of an observation. *)
Definition frequent_labels (label_of : cell * cell -> cell) (obs : list (cell * cell))
    (min_count : nat) : list cell :=
  filter (fun l => (min_count ≤ length (filter (fun o => label_of o = l) obs))%nat)
         (sorted_labels (label_of <$> obs)).

(** The pruning in the specification's words, on the rows of the data that
    have both values: a label stays when at least [min_count] of those rows
    carry it, that is, when its marginal total in the full contingency table
    reaches [min_count]; a cell counts the rows that carry both labels. *)
Definition pruned_contingency (a b : Series) (min_count : nat) : Crosstab :=
  let obs := complete_pairs a b in
  let rows := frequent_labels fst obs min_count in
  let cols := frequent_labels snd obs min_count in
  mkCrosstab rows cols (map (fun r => map (count_pairs obs r) cols) rows).

(** The claim on the table that reaches the chi-square computation, read on
    that table itself: none of its rows and columns has a total below 5. *)
Definition handed_table_has_no_sparse_marginal : Prop :=
  ∀ (E : Externals) (df : DataFrame) (col_a col_b : string)
    (chi2 p : float) (dof : Z) (tab : Crosstab),
    chi_square_test df col_a col_b 5 = Ok (chi2, p, dof, tab) ->
    Forall (fun total => (5 ≤ total)%nat) (row_sums tab)
    ∧ Forall (fun total => (5 ≤ total)%nat) (col_sums tab).

(** Seventeen complete rows and two incomplete ones.  The full table is
    [[3,3,1],[3,3,0],[0,0,4]]: the last row has total 4 and goes, the last
    column has total 5 and stays. *)
Definition table_sparse_row : DataFrame :=
  mkDataFrame (seq 0 19)
    [("Device", mkSeries Object
        (replicate 7 (Str "desktop") ++ replicate 6 (Str "mobile")
         ++ replicate 4 (Str "tablet") ++ [NaN; Str "desktop"]));
     ("Returned", mkSeries Object
        (replicate 3 (Str "a") ++ replicate 3 (Str "b") ++ [Str "c"]
         ++ replicate 3 (Str "a") ++ replicate 3 (Str "b")
         ++ replicate 4 (Str "c") ++ [Str "a"; NaN]))].

(** * Properties *)

(** ** The definitions on small inputs *)

Example quantile_ex :
  (quantile [qz 0; qz 1; qz 1; qz 2] q025, quantile [qz 0; qz 1; qz 1; qz 2] q075)
  = (Some (Q2Qc (3 # 4)), Some (Q2Qc (5 # 4))).
Proof. f_equal; f_equal; apply Qc_is_canon; reflexivity. Qed.

Example iqr_ex1 : iqr_outliers_count [qz 0; qz 1; qz 1; qz 2] = 0.
Proof. vm_compute. reflexivity. Qed.

Example iqr_ex2 : iqr_outliers_count [qz 0; qz 1; qz 1; qz 2; qz 1] = 2.
Proof. vm_compute. reflexivity. Qed.

Example iqr_ex3 : iqr_outliers_count [qz 1; qz 2; qz 3; qz 4; qz 100] = 1.
Proof. vm_compute. reflexivity. Qed.

Example crosstab_ex :
  crosstab (mkSeries Object [Str "b"; Str "a"; NaN; Str "b"; Str "a"; Str "b"])
           (mkSeries Float64 [Num (qz 1); Num (qz 0); Num (qz 1); Num (qz 1); NaN; Num (qz 0)])
  = mkCrosstab [Str "a"; Str "b"] [Num (qz 0); Num (qz 1)] [[1; 0]; [1; 2]].
Proof. vm_compute. reflexivity. Qed.

(** ** Reading and assigning columns *)

Lemma assoc_assign_eq name s cols : assoc name (assign name s cols) = Some s.
Proof.
  induction cols as [|[n c] rest IH]; simpl.
  - by rewrite decide_True.
  - destruct (decide (n = name)) as [->|Hne]; simpl.
    + by rewrite decide_True.
    + by rewrite decide_False.
Qed.

Lemma assoc_assign_ne name other s cols :
  name ≠ other -> assoc other (assign name s cols) = assoc other cols.
Proof.
  intros Hne. induction cols as [|[n c] rest IH]; simpl.
  - by rewrite decide_False.
  - destruct (decide (n = name)) as [->|Hn]; simpl.
    + by rewrite !decide_False.
    + destruct (decide (n = other)); auto.
Qed.

Lemma assoc_is_Some name cols : is_Some (assoc name cols) <-> name ∈ cols.*1.
Proof.
  induction cols as [|[n c] rest IH]; simpl.
  - split; [intros [? ?]; discriminate | intros Hin; inversion Hin].
  - destruct (decide (n = name)) as [->|Hn].
    + split; [intros _; left | eauto].
    + rewrite IH, elem_of_cons. split; [by right | by intros [?|?]].
Qed.

Lemma names_assign name s cols :
  (assign name s cols).*1 = if decide (name ∈ cols.*1) then cols.*1 else cols.*1 ++ [name].
Proof.
  induction cols as [|[n c] rest IH].
  - cbn. case_decide as Hin; [inversion Hin | done].
  - cbn [assign]. destruct (decide (n = name)) as [->|Hn].
    + rewrite !fmap_cons. cbn [fst].
      destruct (decide (name ∈ name :: rest.*1)) as [|Hin]; [done|].
      exfalso. apply Hin. left.
    + rewrite !fmap_cons, IH. cbn [fst].
      destruct (decide (name ∈ rest.*1)) as [Hin|Hnin];
        destruct (decide (name ∈ n :: rest.*1)) as [Hin'|Hnin'].
      * done.
      * exfalso. apply Hnin'. by right.
      * apply elem_of_cons in Hin' as [->|?]; done.
      * done.
Qed.

Lemma getitem_setitem_eq df name s : getitem (setitem df name s) name = Some s.
Proof. apply assoc_assign_eq. Qed.

Lemma getitem_setitem_ne df name other s :
  name ≠ other -> getitem (setitem df name s) other = getitem df other.
Proof. apply assoc_assign_ne. Qed.

Lemma has_column_getitem name df :
  has_column name df = true <-> is_Some (getitem df name).
Proof.
  unfold has_column, getitem, column_names.
  rewrite bool_decide_eq_true. symmetry. apply assoc_is_Some.
Qed.

Lemma has_column_false name df :
  has_column name df = false <-> getitem df name = None.
Proof.
  rewrite <-not_true_iff_false, has_column_getitem, <-eq_None_not_Some. done.
Qed.

Lemma has_column_setitem_ne df name other s :
  name ≠ other -> has_column other (setitem df name s) = has_column other df.
Proof.
  intros Hne. destruct (has_column other df) eqn:Hc.
  - apply has_column_getitem. rewrite getitem_setitem_ne by done.
    by apply has_column_getitem.
  - apply has_column_false. rewrite getitem_setitem_ne by done.
    by apply has_column_false.
Qed.

Lemma column_names_setitem df name s :
  column_names (setitem df name s)
  = if has_column name df then column_names df else column_names df ++ [name].
Proof.
  unfold column_names, has_column, setitem; simpl. rewrite names_assign.
  unfold column_names. destruct (decide (name ∈ (df_columns df).*1)) as [Hin|Hnin].
  - by rewrite bool_decide_eq_true_2.
  - by rewrite bool_decide_eq_false_2.
Qed.

(** ** Enrichment *)

Section Enrichment.
Context {E : Externals}.

Lemma enrich_order_date_ok df : (enrich_order_date df).1 = Ok tt.
Proof.
  unfold enrich_order_date, bind, get, when, modify, ret.
  destruct (has_column "OrderDate" df); [|done].
  destruct (getitem df "OrderDate") as [col|]; [|done].
  by destruct (to_datetime col).
Qed.

Lemma enrich_order_date_state df :
  (enrich_order_date df).2 = df ∨
  ∃ col parsed, getitem df "OrderDate" = Some col ∧ to_datetime col = Ok parsed ∧
                (enrich_order_date df).2 = setitem df "OrderDate" parsed.
Proof.
  unfold enrich_order_date, bind, get, when, modify, ret.
  destruct (has_column "OrderDate" df); [|by left].
  destruct (getitem df "OrderDate") as [col|]; [|by left].
  destruct (to_datetime col) as [parsed|e] eqn:Hp; [right; eauto | by left].
Qed.

Lemma enrich_age_group_ok d : (enrich_age_group d).1 = Ok tt.
Proof.
  unfold enrich_age_group, bind, get, when, modify, ret.
  destruct (has_column "Age" d); [|done].
  destruct (getitem d "Age") as [age|]; [|done].
  by destruct (cut age bins labels).
Qed.

Lemma enrich_age_group_state d :
  (enrich_age_group d).2 = d ∨
  ∃ age grouped, getitem d "Age" = Some age ∧ cut age bins labels = Ok grouped ∧
                 (enrich_age_group d).2 = setitem d "AgeGroup" grouped.
Proof.
  unfold enrich_age_group, bind, get, when, modify, ret.
  destruct (has_column "Age" d); [|by left].
  destruct (getitem d "Age") as [age|]; [|by left].
  destruct (cut age bins labels) as [g|e] eqn:Hc; [right; eauto | by left].
Qed.

Lemma enrich_age_group_numeric d age :
  getitem d "Age" = Some age -> is_number (dtype_of age) = true ->
  (enrich_age_group d).2
  = setitem d "AgeGroup" (mkSeries Category (map (cut_value bins labels) (values age))).
Proof.
  intros Hage Hnum. unfold enrich_age_group, bind, get, when, modify, ret.
  assert (has_column "Age" d = true) as ->.
  { apply has_column_getitem. rewrite Hage. eauto. }
  rewrite Hage. unfold cut. by rewrite Hnum.
Qed.

Lemma enrich_revenue_state d :
  ((enrich_revenue d).2 = d) ∨
  ∃ price quantity revenue,
    getitem d "Revenue" = None ∧ getitem d "Price" = Some price ∧
    getitem d "Quantity" = Some quantity ∧ series_mul price quantity = Ok revenue ∧
    enrich_revenue d = (Ok tt, setitem d "Revenue" revenue).
Proof.
  unfold enrich_revenue, bind, get, when, modify, ret, raise, lift.
  destruct (has_column "Price" d); [|by left].
  destruct (has_column "Quantity" d); [|by left].
  destruct (has_column "Revenue" d) eqn:Hrev; [by left|]. simpl.
  destruct (getitem d "Price") as [price|]; [|by left].
  destruct (getitem d "Quantity") as [quantity|]; [|by left].
  destruct (series_mul price quantity) as [revenue|e] eqn:Hm; [|by left].
  right. exists price, quantity, revenue.
  by apply has_column_false in Hrev.
Qed.

Lemma enrich_unfold df :
  enrich df = enrich_revenue (enrich_age_group (enrich_order_date df).2).2.
Proof.
  unfold enrich, bind.
  pose proof (enrich_order_date_ok df) as H1.
  destruct (enrich_order_date df) as [r1 d1]; simpl in *; subst r1.
  pose proof (enrich_age_group_ok d1) as H2.
  destruct (enrich_age_group d1) as [r2 d2]; simpl in *; by subst r2.
Qed.

(** Columns other than the three the enrichment writes keep their values,
    through each step. *)
Lemma enrich_order_date_other df c :
  c ≠ "OrderDate" -> getitem (enrich_order_date df).2 c = getitem df c.
Proof.
  intros Hc. destruct (enrich_order_date_state df) as [->|(col & parsed & _ & _ & ->)]; [done|].
  by apply getitem_setitem_ne.
Qed.

Lemma enrich_age_group_other d c :
  c ≠ "AgeGroup" -> getitem (enrich_age_group d).2 c = getitem d c.
Proof.
  intros Hc. destruct (enrich_age_group_state d) as [->|(age & g & _ & _ & ->)]; [done|].
  by apply getitem_setitem_ne.
Qed.

Lemma enrich_revenue_other d c :
  c ≠ "Revenue" -> getitem (enrich_revenue d).2 c = getitem d c.
Proof.
  intros Hc.
  destruct (enrich_revenue_state d) as [->|(p & q & r & _ & _ & _ & _ & ->)]; [done|].
  by apply getitem_setitem_ne.
Qed.

Lemma enrich_revenue_present d r :
  getitem d "Revenue" = Some r -> (enrich_revenue d).2 = d.
Proof.
  intros Hr. destruct (enrich_revenue_state d) as [|(p & q & rev & Hnone & _)]; [done|].
  congruence.
Qed.

End Enrichment.

Section EnrichmentClaims.
Context {E : Externals}.

Lemma searchsorted_left_below b rest x :
  (b < x)%Qc -> searchsorted_left (b :: rest) x = S (searchsorted_left rest x).
Proof. intros Hlt. simpl. by rewrite bool_decide_eq_true_2. Qed.

Lemma searchsorted_left_stop b rest x :
  (x ≤ b)%Qc -> searchsorted_left (b :: rest) x = 0.
Proof.
  intros Hle. simpl. rewrite bool_decide_eq_false_2; [done|].
  by apply Qcle_not_lt.
Qed.

Lemma edge_lt (a b : Z) x : (a < b)%Z -> (qz b < x)%Qc -> (qz a < x)%Qc.
Proof.
  intros Hab Hx. apply Qclt_trans with (qz b); [|done].
  unfold Qclt, Qlt; simpl. lia.
Qed.

Ltac edge := first [ assumption | (eapply edge_lt; [|eassumption]; lia) ].

(** The band of one age, edge by edge. *)
Lemma cut_value_bands x :
  ((qz 18 < x ∧ x ≤ qz 25)%Qc -> cut_value bins labels (Num x) = Str "18-25") ∧
  ((qz 25 < x ∧ x ≤ qz 35)%Qc -> cut_value bins labels (Num x) = Str "26-35") ∧
  ((qz 35 < x ∧ x ≤ qz 45)%Qc -> cut_value bins labels (Num x) = Str "36-45") ∧
  ((qz 45 < x ∧ x ≤ qz 55)%Qc -> cut_value bins labels (Num x) = Str "46-55") ∧
  ((qz 55 < x ∧ x ≤ qz 200)%Qc -> cut_value bins labels (Num x) = Str "55+") ∧
  ((x < qz 18 ∨ qz 200 < x)%Qc -> cut_value bins labels (Num x) = NaN).
Proof.
  unfold cut_value, bins.
  repeat split.
  - intros [H1 H2].
    rewrite searchsorted_left_below by edge.
    rewrite searchsorted_left_stop by edge. done.
  - intros [H1 H2].
    do 2 rewrite searchsorted_left_below by edge.
    rewrite searchsorted_left_stop by edge. done.
  - intros [H1 H2].
    do 3 rewrite searchsorted_left_below by edge.
    rewrite searchsorted_left_stop by edge. done.
  - intros [H1 H2].
    do 4 rewrite searchsorted_left_below by edge.
    rewrite searchsorted_left_stop by edge. done.
  - intros [H1 H2].
    do 5 rewrite searchsorted_left_below by edge.
    rewrite searchsorted_left_stop by edge. done.
  - intros [H1|H1].
    + rewrite searchsorted_left_stop by by apply Qclt_le_weak. done.
    + do 6 rewrite searchsorted_left_below by edge. done.
Qed.

(** C3 (as amended): on a numeric Age column the derived AgeGroup column
    holds, row by row, the band of the age: an age in (18,25] gives "18-25",
    (25,35] gives "26-35", (35,45] gives "36-45", (45,55] gives "46-55",
    (55,200] gives "55+"; an age below 18 or above 200, and a missing age,
    gives a missing value.  Ages 24 and 25 fall in "18-25", 26 in "26-35",
    60 in "55+". *)
Theorem age_group_bands (df : DataFrame) (age : Series) :
  getitem df "Age" = Some age -> is_number (dtype_of age) = true ->
  getitem (enrich df).2 "AgeGroup"
    = Some (mkSeries Category (map (cut_value bins labels) (values age)))
  ∧ (∀ x : Qc,
      ((qz 18 < x ∧ x ≤ qz 25)%Qc -> cut_value bins labels (Num x) = Str "18-25") ∧
      ((qz 25 < x ∧ x ≤ qz 35)%Qc -> cut_value bins labels (Num x) = Str "26-35") ∧
      ((qz 35 < x ∧ x ≤ qz 45)%Qc -> cut_value bins labels (Num x) = Str "36-45") ∧
      ((qz 45 < x ∧ x ≤ qz 55)%Qc -> cut_value bins labels (Num x) = Str "46-55") ∧
      ((qz 55 < x ∧ x ≤ qz 200)%Qc -> cut_value bins labels (Num x) = Str "55+") ∧
      ((x < qz 18 ∨ qz 200 < x)%Qc -> cut_value bins labels (Num x) = NaN))
  ∧ cut_value bins labels NaN = NaN
  ∧ cut_value bins labels (Num (qz 24)) = Str "18-25"
  ∧ cut_value bins labels (Num (qz 25)) = Str "18-25"
  ∧ cut_value bins labels (Num (qz 26)) = Str "26-35"
  ∧ cut_value bins labels (Num (qz 60)) = Str "55+".
Proof.
  intros Hage Hnum. split; [|split; [apply cut_value_bands | by vm_compute]].
  rewrite enrich_unfold, enrich_revenue_other by done.
  assert (getitem (enrich_order_date df).2 "Age" = Some age) as Hage1.
  { by rewrite enrich_order_date_other. }
  rewrite (enrich_age_group_numeric _ _ Hage1 Hnum).
  apply getitem_setitem_eq.
Qed.

Lemma enrich_adds_revenue (df : DataFrame) (price quantity revenue : Series) :
  getitem df "Price" = Some price -> getitem df "Quantity" = Some quantity ->
  getitem df "Revenue" = None -> series_mul price quantity = Ok revenue ->
  (enrich df).1 = Ok tt ∧ getitem (enrich df).2 "Revenue" = Some revenue.
Proof.
  intros Hp Hq Hr Hmul. rewrite enrich_unfold.
  set (d := (enrich_age_group (enrich_order_date df).2).2).
  assert (∀ c, c ≠ "OrderDate" -> c ≠ "AgeGroup" -> getitem d c = getitem df c) as Hd.
  { intros c H1 H2. unfold d.
    by rewrite enrich_age_group_other, enrich_order_date_other. }
  unfold enrich_revenue, bind, get, when, modify, ret, raise, lift.
  assert (has_column "Price" d = true) as ->.
  { apply has_column_getitem. rewrite Hd, Hp by done. eauto. }
  assert (has_column "Quantity" d = true) as ->.
  { apply has_column_getitem. rewrite Hd, Hq by done. eauto. }
  assert (has_column "Revenue" d = false) as ->.
  { apply has_column_false. by rewrite Hd. }
  simpl. rewrite !Hd, Hp, Hq, Hmul by done. simpl. split; [done|].
  apply getitem_setitem_eq.
Qed.

Lemma floor_qz (z : Z) : Qfloor (qz z) = z.
Proof.
  exact (Qfloor_Z z).
Qed.

Lemma wrap_int64_small (z : Z) : (- 2 ^ 63 ≤ z < 2 ^ 63)%Z -> wrap_int64 z = z.
Proof. intros Hz. unfold wrap_int64. rewrite Z.mod_small; lia. Qed.

Lemma wrap_int64_range (z : Z) :
  ∃ k : Z, wrap_int64 z = (z + k * 2 ^ 64)%Z ∧ (- 2 ^ 63 ≤ z + k * 2 ^ 64 < 2 ^ 63)%Z.
Proof.
  exists (- ((z + 2 ^ 63) / 2 ^ 64))%Z. unfold wrap_int64.
  pose proof (Z.div_mod (z + 2 ^ 63) (2 ^ 64) ltac:(lia)) as Hdm.
  pose proof (Z.mod_pos_bound (z + 2 ^ 63) (2 ^ 64) ltac:(lia)) as Hb.
  lia.
Qed.

(** C6 (as amended): with int64 price and quantity columns and no revenue
    column, the enrichment returns and the revenue column holds, row by row,
    the product reduced modulo 2^64 into the int64 range, which is the
    product itself whenever that fits in int64; when one of the two columns
    is float64 the revenue column holds the float64 products, exact whenever
    the product is a float64 value and missing where a factor is missing.
    Price=[10,20] and Quantity=[2,3] give Revenue=[20,60]; a revenue column
    that is already there keeps its values. *)
Theorem revenue_derived :
  (∀ (df : DataFrame) (price quantity : Series),
     getitem df "Price" = Some price -> getitem df "Quantity" = Some quantity ->
     getitem df "Revenue" = None ->
     dtype_of price = Int64 -> dtype_of quantity = Int64 ->
     (enrich df).1 = Ok tt ∧
     getitem (enrich df).2 "Revenue"
       = Some (mkSeries Int64 (zip_with mul_int64 (values price) (values quantity))))
  ∧ (∀ x y : Z, (- 2 ^ 63 ≤ x * y < 2 ^ 63)%Z ->
                mul_int64 (Num (qz x)) (Num (qz y)) = Num (qz (x * y)))
  ∧ (∀ x y : Z, ∃ k : Z,
       mul_int64 (Num (qz x)) (Num (qz y)) = Num (qz (x * y + k * 2 ^ 64))
       ∧ (- 2 ^ 63 ≤ x * y + k * 2 ^ 64 < 2 ^ 63)%Z)
  ∧ (∀ (df : DataFrame) (price quantity : Series),
       getitem df "Price" = Some price -> getitem df "Quantity" = Some quantity ->
       getitem df "Revenue" = None ->
       is_np_number (dtype_of price) = true -> is_np_number (dtype_of quantity) = true ->
       dtype_of price = Float64 ∨ dtype_of quantity = Float64 ->
       (enrich df).1 = Ok tt ∧
       getitem (enrich df).2 "Revenue"
         = Some (mkSeries Float64 (zip_with mul_float64 (values price) (values quantity))))
  ∧ (∀ x y : Qc, binary64 (x * y)%Qc -> mul_float64 (Num x) (Num y) = Num (x * y)%Qc)
  ∧ (∀ c : cell, mul_float64 NaN c = NaN ∧ mul_float64 c NaN = NaN)
  ∧ getitem (enrich table_price_quantity).2 "Revenue"
      = Some (mkSeries Int64 [Num (qz 20); Num (qz 60)])
  ∧ (∀ (df : DataFrame) (revenue : Series),
       getitem df "Revenue" = Some revenue ->
       getitem (enrich df).2 "Revenue" = Some revenue).
Proof.
  assert (∀ x y : Z, (- 2 ^ 63 ≤ x * y < 2 ^ 63)%Z ->
                     mul_int64 (Num (qz x)) (Num (qz y)) = Num (qz (x * y))) as Hfits.
  { intros x y Hxy. unfold mul_int64. by rewrite !floor_qz, wrap_int64_small. }
  split; [|split; [exact Hfits|split; [|split; [|split; [|split; [|split]]]]]].
  - intros df price quantity Hp Hq Hr Hpn Hqn.
    apply (enrich_adds_revenue df price quantity); try done.
    unfold series_mul. by rewrite Hpn, Hqn.
  - intros x y. destruct (wrap_int64_range (x * y)) as (k & Hk & Hrange).
    exists k. split; [|done]. unfold mul_int64. by rewrite !floor_qz, Hk.
  - intros df price quantity Hp Hq Hr Hpn Hqn Hfloat.
    apply (enrich_adds_revenue df price quantity); try done.
    unfold series_mul.
    destruct (dtype_of price), (dtype_of quantity); try done; by destruct Hfloat.
  - intros x y Hxy. unfold mul_float64. by apply float_mul_exact.
  - intros c. split; [done|]. by destruct c.
  - destruct (enrich_adds_revenue table_price_quantity
                (mkSeries Int64 [Num (qz 10); Num (qz 20)])
                (mkSeries Int64 [Num (qz 2); Num (qz 3)])
                (mkSeries Int64 (zip_with mul_int64 [Num (qz 10); Num (qz 20)]
                                                    [Num (qz 2); Num (qz 3)])))
      as [_ ->]; done.
  - intros df revenue Hr. rewrite enrich_unfold.
    set (d := (enrich_age_group (enrich_order_date df).2).2).
    assert (getitem d "Revenue" = Some revenue) as Hd.
    { unfold d. by rewrite enrich_age_group_other, enrich_order_date_other. }
    by rewrite (enrich_revenue_present _ _ Hd).
Qed.

(** C9 (as amended): the enrichment keeps the row index; its column names
    are the old ones, in order, followed by at most AgeGroup and Revenue;
    every column other than OrderDate and AgeGroup keeps its values; the
    OrderDate column changes only to what the date parser returned for it;
    the AgeGroup column, new or already there, changes only to the bands of
    the Age column. *)
Theorem enrichment_frame (df : DataFrame) :
  df_index (enrich df).2 = df_index df
  ∧ (∃ added, column_names (enrich df).2 = column_names df ++ added
              ∧ added `sublist_of` ["AgeGroup"; "Revenue"])
  ∧ (∀ c, c ≠ "OrderDate" -> c ≠ "AgeGroup" -> c ∈ column_names df ->
          getitem (enrich df).2 c = getitem df c)
  ∧ (getitem (enrich df).2 "OrderDate" = getitem df "OrderDate"
     ∨ ∃ col parsed, getitem df "OrderDate" = Some col ∧ to_datetime col = Ok parsed
                     ∧ getitem (enrich df).2 "OrderDate" = Some parsed)
  ∧ (getitem (enrich df).2 "AgeGroup" = getitem df "AgeGroup"
     ∨ ∃ age grouped, getitem df "Age" = Some age ∧ cut age bins labels = Ok grouped
                      ∧ getitem (enrich df).2 "AgeGroup" = Some grouped).
Proof.
  rewrite enrich_unfold.
  set (d1 := (enrich_order_date df).2).
  set (d2 := (enrich_age_group d1).2).
  assert (df_index d1 = df_index df ∧ column_names d1 = column_names df) as [Hi1 Hn1].
  { unfold d1.
    destruct (enrich_order_date_state df) as [->|(col & parsed & Hc & _ & ->)]; [done|].
    split; [done|]. rewrite column_names_setitem.
    assert (has_column "OrderDate" df = true) as ->; [|done].
    apply has_column_getitem. rewrite Hc. eauto. }
  assert (df_index d2 = df_index d1
          ∧ ∃ a2, column_names d2 = column_names d1 ++ a2
                  ∧ (a2 = [] ∨ a2 = ["AgeGroup"])) as [Hi2 (a2 & Hn2 & Ha2)].
  { unfold d2.
    destruct (enrich_age_group_state d1) as [->|(age & g & _ & _ & ->)].
    - split; [done|]. exists []. rewrite app_nil_r. auto.
    - split; [done|]. rewrite column_names_setitem.
      destruct (has_column "AgeGroup" d1).
      + exists []. rewrite app_nil_r. auto.
      + exists ["AgeGroup"]. auto. }
  assert (df_index (enrich_revenue d2).2 = df_index d2
          ∧ ∃ a3, column_names (enrich_revenue d2).2 = column_names d2 ++ a3
                  ∧ (a3 = [] ∨ a3 = ["Revenue"])) as [Hi3 (a3 & Hn3 & Ha3)].
  { destruct (enrich_revenue_state d2) as [->|(p & q & r & Hnone & _ & _ & _ & ->)].
    - split; [done|]. exists []. rewrite app_nil_r. auto.
    - split; [done|]. simpl. rewrite column_names_setitem.
      apply has_column_false in Hnone. rewrite Hnone. exists ["Revenue"]. auto. }
  split; [congruence|]. split.
  { exists (a2 ++ a3). split.
    - by rewrite Hn3, Hn2, Hn1, app_assoc.
    - destruct Ha2 as [-> | ->], Ha3 as [-> | ->]; simpl.
      + apply sublist_nil_l.
      + apply sublist_cons, sublist_skip, sublist_nil.
      + apply sublist_skip, sublist_nil_l.
      + reflexivity. }
  split.
  { intros c Hod Hag Hin.
    destruct (decide (c = "Revenue")) as [->|Hrev].
    - apply assoc_is_Some in Hin as [r Hr]. fold (getitem df "Revenue") in Hr.
      assert (getitem d2 "Revenue" = Some r) as Hd.
      { unfold d2, d1. by rewrite enrich_age_group_other, enrich_order_date_other. }
      by rewrite (enrich_revenue_present _ _ Hd), Hd.
    - unfold d2, d1.
      by rewrite enrich_revenue_other, enrich_age_group_other,
                 enrich_order_date_other. }
  split.
  { rewrite enrich_revenue_other by done. unfold d2.
    rewrite enrich_age_group_other by done. unfold d1.
    destruct (enrich_order_date_state df) as [->|(col & parsed & Hc & Hp & ->)];
      [by left|].
    right. exists col, parsed. by rewrite getitem_setitem_eq. }
  rewrite enrich_revenue_other by done. unfold d2.
  destruct (enrich_age_group_state d1) as [->|(age & g & Hage & Hcut & ->)].
  - left. unfold d1. by rewrite enrich_order_date_other.
  - right. exists age, g. rewrite getitem_setitem_eq.
    unfold d1 in Hage. by rewrite enrich_order_date_other in Hage.
Qed.

End EnrichmentClaims.

(** C3, the claim as written fails: an age of 201 lies above 55 and gets no
    band, because the last edge of the program is 200. *)
Lemma age_201_has_no_band : ¬ age_bands_as_specified (cut_value bins labels).
Proof.
  intros Hspec. destruct (Hspec (qz 201)) as (_ & _ & _ & _ & H55 & _).
  assert (qz 55 < qz 201)%Qc as Hlt by (unfold Qclt, Qlt; simpl; lia).
  specialize (H55 Hlt). vm_compute in H55. discriminate.
Qed.

(** The lowest edge itself is outside the first band: [include_lowest] is
    left at its default. *)
Example age_18_has_no_band : cut_value bins labels (Num (qz 18)) = NaN.
Proof. by vm_compute. Qed.

Lemma age_group_bands_witness :
  getitem (enrich (E := fixture) table_ages).2 "AgeGroup"
  = Some (mkSeries Category
            [Str "18-25"; Str "18-25"; Str "26-35"; Str "55+"; NaN; NaN]).
Proof.
  destruct (age_group_bands (E := fixture) table_ages
              (mkSeries Float64
                 [Num (qz 24); Num (qz 25); Num (qz 26); Num (qz 60); Num (qz 17); NaN])
              eq_refl eq_refl) as [-> _].
  by vm_compute.
Defined.

(** C9, the claim as written fails: a table that already has an AgeGroup
    column next to Age gets that column overwritten with the bands. *)
Lemma age_group_column_overwritten : ¬ enrichment_changes_only_dates.
Proof.
  intros Hspec.
  specialize (Hspec fixture table_age_with_group "AgeGroup").
  assert ("AgeGroup" ∈ column_names table_age_with_group) as Hin.
  { apply (bool_decide_unpack _). by vm_compute. }
  specialize (Hspec Hin ltac:(done)). vm_compute in Hspec. discriminate.
Qed.

(** ** The IQR rule *)

Lemma merge_sort_perm (s s' : list Qc) :
  s ≡ₚ s' -> merge_sort Qcle s = merge_sort Qcle s'.
Proof.
  intros Hp. apply (Sorted_unique Qcle).
  - apply Sorted_merge_sort, _.
  - apply Sorted_merge_sort, _.
  - by rewrite !merge_sort_Permutation.
Qed.

Lemma quantile_perm (s s' : list Qc) q : s ≡ₚ s' -> quantile s q = quantile s' q.
Proof.
  intros Hp. unfold quantile.
  by rewrite (merge_sort_perm _ _ Hp), (Permutation_length Hp).
Qed.

Lemma iqr_bounds_perm (s s' : list Qc) : s ≡ₚ s' -> iqr_bounds s = iqr_bounds s'.
Proof.
  intros Hp. unfold iqr_bounds. by rewrite !(quantile_perm _ _ _ Hp).
Qed.

Lemma inside_not_outside (lower upper v : Qc) :
  (lower < v ∧ v < upper)%Qc -> ¬ outside lower upper v.
Proof.
  intros [Hl Hu] [Ho|Ho].
  - apply (Qclt_not_le _ _ Hl). by apply Qclt_le_weak.
  - apply (Qclt_not_le _ _ Hu). by apply Qclt_le_weak.
Qed.

Lemma filter_outside_inside (lower upper : Qc) (extra : list Qc) :
  Forall (fun v => lower < v ∧ v < upper)%Qc extra ->
  filter (outside lower upper) extra = [].
Proof.
  induction 1 as [|v extra Hv _ IH]; [done|].
  rewrite filter_cons_False; [done|]. by apply inside_not_outside.
Qed.

(** Reading computed bounds: two canonical rationals with equal values are
    equal. *)
Lemma iqr_bounds_eval (s : list Qc) (lower upper : Qc) :
  match iqr_bounds s with
  | Some (a, b) => Qeq_bool a lower && Qeq_bool b upper
  | None => false
  end = true ->
  iqr_bounds s = Some (lower, upper).
Proof.
  destruct (iqr_bounds s) as [[a b]|]; [|done].
  intros [Ha Hb]%andb_true_iff.
  apply Qeq_bool_eq, Qc_is_canon in Ha. apply Qeq_bool_eq, Qc_is_canon in Hb.
  by subst.
Qed.

(** C4 (as amended): the IQR outlier count does not depend on the order of
    the rows; when added rows leave the bounds where they were, rows
    strictly inside the bounds leave the count unchanged and one row above
    the upper bound raises it by exactly one. *)
Theorem iqr_outlier_count_relations :
  (∀ s s' : list Qc, s ≡ₚ s' -> iqr_outliers_count s = iqr_outliers_count s')
  ∧ (∀ (s extra : list Qc) (lower upper : Qc),
       iqr_bounds s = Some (lower, upper) ->
       iqr_bounds (s ++ extra) = Some (lower, upper) ->
       Forall (fun v => lower < v ∧ v < upper)%Qc extra ->
       iqr_outliers_count (s ++ extra) = iqr_outliers_count s)
  ∧ (∀ (s : list Qc) (v lower upper : Qc),
       iqr_bounds s = Some (lower, upper) ->
       iqr_bounds (s ++ [v]) = Some (lower, upper) ->
       (upper < v)%Qc ->
       iqr_outliers_count (s ++ [v]) = S (iqr_outliers_count s)).
Proof.
  repeat split.
  - intros s s' Hp. unfold iqr_outliers_count.
    rewrite (iqr_bounds_perm _ _ Hp).
    destruct (iqr_bounds s') as [[lower upper]|]; [|done].
    by rewrite Hp.
  - intros s extra lower upper Hs Hext Hin. unfold iqr_outliers_count.
    rewrite Hs, Hext, filter_app, length_app.
    rewrite (filter_outside_inside _ _ extra) by done.
    simpl. lia.
  - intros s v lower upper Hs Hext Hv. unfold iqr_outliers_count.
    rewrite Hs, Hext, filter_app, length_app.
    rewrite filter_cons_True by by right. simpl. lia.
Qed.

Lemma iqr_outlier_count_relations_witness :
  iqr_outliers_count [qz 3; qz 1; qz 2] = iqr_outliers_count [qz 1; qz 2; qz 3]
  ∧ iqr_outliers_count (column_stable ++ [qz 3]) = iqr_outliers_count column_stable
  ∧ iqr_outliers_count (column_stable ++ [qz 8]) = S (iqr_outliers_count column_stable).
Proof.
  destruct iqr_outlier_count_relations as (Hperm & Hinside & Habove).
  split; [|split].
  - apply Hperm.
    apply (Permutation_app_comm [qz 3] [qz 1; qz 2]).
  - apply (Hinside column_stable [qz 3] (qz (-1)) (qz 7)).
    + apply iqr_bounds_eval. by vm_compute.
    + apply iqr_bounds_eval. by vm_compute.
    + repeat constructor; unfold Qclt, Qlt; simpl; lia.
  - apply (Habove column_stable (qz 8) (qz (-1)) (qz 7)).
    + apply iqr_bounds_eval. by vm_compute.
    + apply iqr_bounds_eval. by vm_compute.
    + unfold Qclt, Qlt; simpl; lia.
Defined.

(** C4, the claim as written fails: the bounds are recomputed from the
    extended column.  On [0,1,1,2] the bounds are [0,2] and nothing is
    flagged; adding 1, strictly inside, narrows them to [1,1] and flags two
    rows; adding 5/2, above the upper bound, widens them to [-1/2,7/2] and
    flags nothing. *)
Lemma iqr_count_follows_new_bounds :
  ¬ adding_inside_keeps_count ∧ ¬ adding_above_adds_one.
Proof.
  assert (iqr_bounds column_0112 = Some (qz 0, qz 2)) as Hb.
  { apply iqr_bounds_eval. by vm_compute. }
  split.
  - intros Hspec. specialize (Hspec column_0112 (qz 1) (qz 0) (qz 2) Hb).
    assert (qz 0 < qz 1 ∧ qz 1 < qz 2)%Qc as Hin.
    { split; unfold Qclt, Qlt; simpl; lia. }
    specialize (Hspec Hin). vm_compute in Hspec. discriminate.
  - intros Hspec. specialize (Hspec column_0112 (Q2Qc (5 # 2)) (qz 0) (qz 2) Hb).
    assert (qz 2 < Q2Qc (5 # 2))%Qc as Hab.
    { unfold Qclt, Qlt; simpl; lia. }
    specialize (Hspec Hab). vm_compute in Hspec. discriminate.
Qed.

(** ** The monad, step by step *)

Lemma bind_ok {S A B} (m : M S A) (k : A -> M S B) s a s' :
  m s = (Ok a, s') -> bind m k s = k a s'.
Proof. intros Hm. unfold bind. by rewrite Hm. Qed.

Lemma bind_raise {S A B} (m : M S A) (k : A -> M S B) s e s' :
  m s = (Raise e, s') -> bind m k s = (Raise e, s').
Proof. intros Hm. unfold bind. by rewrite Hm. Qed.

Lemma bind_ret_unit {S} (m : M S unit) s : bind m (fun _ => ret tt) s = m s.
Proof. unfold bind, ret. by destruct (m s) as [[[]|e] s']. Qed.

Lemma bind_ext {S A B} (m : M S A) (k k' : A -> M S B) s :
  (∀ a s', k a s' = k' a s') -> bind m k s = bind m k' s.
Proof. intros Hk. unfold bind. by destruct (m s) as [[a|e] s']. Qed.

Lemma bind_ret_l {S A B} (a : A) (k : A -> M S B) s : bind (ret a) k s = k a s.
Proof. done. Qed.

Lemma bind_assoc {S A B C} (m : M S A) (k : A -> M S B) (k' : B -> M S C) s :
  bind (bind m k) k' s = bind m (fun a => bind (k a) k') s.
Proof. unfold bind. by destruct (m s) as [[a|e] s']. Qed.

(** ** The analyses: gating and effects *)

Section Analyses.
Context {E : Externals}.

Lemma analyses_run_all df st : analyses df st = run_all all_analyses df st.
Proof.
  unfold analyses, all_analyses. cbn [run_all run_analysis].
  apply bind_ext; intros _ s1. unfold return_rates.
  assert (∀ s, h5_regression df s = bind (h5_regression df) (fun _ => ret tt) s) as Hlast.
  { intros s. symmetry. apply bind_ret_unit. }
  destruct (has_column "Returned" df); cbn [when].
  - rewrite bind_assoc. apply bind_ext; intros _ s2.
    rewrite bind_assoc. apply bind_ext; intros _ s3.
    do 6 (apply bind_ext; intros _ ?). apply Hlast.
  - repeat (rewrite bind_ret_l; cbn beta).
    do 5 (apply bind_ext; intros _ ?). apply Hlast.
Qed.

(** A branch whose columns are not all there does nothing. *)
Lemma run_analysis_gated a df st :
  issubset (required a) df = false -> run_analysis a df st = (Ok tt, st).
Proof.
  destruct a; cbn [required run_analysis]; unfold issubset; cbn [forallb];
    rewrite andb_true_r; intros Hgate;
    unfold revenue_by_category, return_rate_by_category, return_rate_by_brand,
      return_rate_by_device, correlation, h1_device, h2_region, h3_age_group,
      h4_top_brands, h5_regression, issubset; cbn [forallb];
    rewrite ?andb_true_r, ?Hgate; try done;
    apply andb_false_iff in Hgate as [-> | ->]; try done;
    by destruct (has_column _ df).
Qed.

Lemma save_bar_effect series title ylabel path st :
  (save_bar series title ylabel path st).2 = st
  ∨ produced (Chart path) st (save_bar series title ylabel path st).2.
Proof.
  unfold save_bar, bind, lift, modify.
  destruct (render_bar _); simpl; [right; eexists; split; [|done]; done | by left].
Qed.

Lemma lift_bind_effect {A} (r : result A) (k : A -> M State unit) (o : output) st :
  (∀ a, (k a st).2 = st ∨ produced o st (k a st).2) ->
  (bind (lift r) k st).2 = st ∨ produced o st (bind (lift r) k st).2.
Proof. intros Hk. unfold bind, lift. destruct r as [a|e]; [apply Hk | by left]. Qed.

Lemma when_effect (c : bool) (body : M State unit) (o : output) st :
  ((body st).2 = st ∨ produced o st (body st).2) ->
  (when c body st).2 = st ∨ produced o st (when c body st).2.
Proof. destruct c; [done | by left]. Qed.

Lemma run_chi_square_effect d col_a col_b name st :
  (run_chi_square d col_a col_b name st).2 = st
  ∨ produced (Test name) st (run_chi_square d col_a col_b name st).2.
Proof.
  unfold run_chi_square.
  apply lift_bind_effect; intros rows. apply lift_bind_effect; intros r.
  right. simpl. eauto.
Qed.

Lemma chart_branch_effect (key val : option Series) path title ylabel
    (prepare : list (cell * cell) -> list (cell * cell))
    (agg : Series -> Series -> result (list (cell * cell))) st :
  let body := match key, val with
              | Some k, Some v =>
                  bind (lift (agg k v)) (fun s => save_bar (prepare s) title ylabel path)
              | _, _ => raise KeyError
              end in
  (body st).2 = st ∨ produced (Chart path) st (body st).2.
Proof.
  destruct key as [k|]; [|by left]. destruct val as [v|]; [|by left].
  apply lift_bind_effect; intros s. apply save_bar_effect.
Qed.

(** Whatever a branch does, the state afterwards is the state before, plus
    at most the one output of that branch. *)
Lemma run_analysis_effect a df st :
  (run_analysis a df st).2 = st ∨ produced (output_of a) st (run_analysis a df st).2.
Proof.
  destruct a; cbn [run_analysis output_of].
  - apply when_effect.
    apply (chart_branch_effect _ _ _ _ _ sort_desc group_sum).
  - do 2 apply when_effect.
    apply (chart_branch_effect _ _ _ _ _ (fun s => s) group_rate).
  - do 2 apply when_effect.
    apply (chart_branch_effect _ _ _ _ _ (fun s => take 20 (sort_desc s)) group_rate).
  - do 2 apply when_effect.
    apply (chart_branch_effect _ _ _ _ _ (fun s => s) group_rate).
  - apply when_effect. apply lift_bind_effect; intros d.
    destruct (getitem d "DiscountPercent") as [x|]; [|by left].
    destruct (getitem d "Quantity") as [y|]; [|by left].
    apply lift_bind_effect; intros c. right. simpl. eauto.
  - apply when_effect, run_chi_square_effect.
  - apply when_effect, run_chi_square_effect.
  - apply when_effect, run_chi_square_effect.
  - apply when_effect.
    destruct (getitem df "Brand") as [brand|]; [|by left].
    apply when_effect, run_chi_square_effect.
  - apply when_effect.
    destruct (getitem df "DiscountPercent") as [x|]; [|by left].
    destruct (getitem df "Quantity") as [y|]; [|by left].
    do 4 (apply lift_bind_effect; intros ?). right. simpl. eauto.
Qed.








End Analyses.

(** ** Claims on the gated analyses and the report *)

Section AnalysisClaims.
Context {E : Externals}.


Lemma select_none {A} (keep : list bool) (l : list A) :
  Forall (fun k => k = false) keep -> select keep l = [].
Proof.
  intros Hk. revert l. induction Hk as [|k keep -> _ IH]; intros [|x l]; simpl; auto.
Qed.

Lemma value_counts_all_missing (vs : list cell) :
  Forall (fun c => c = NaN) vs -> value_counts vs = [].
Proof.
  intros Hvs. unfold value_counts.
  assert (filter (fun c => c ≠ NaN) vs = []) as ->; [|done].
  induction Hvs as [|c vs -> _ IH]; [done|].
  by rewrite filter_cons_False by (intros Hc; by apply Hc).
Qed.

Lemma run_all_gated df l st :
  (∀ a, issubset (required a) df = false) -> run_all l df st = (Ok tt, st).
Proof.
  intros Hgate. induction l as [|a l IH]; [done|].
  cbn [run_all]. by rewrite (bind_ok _ _ _ _ _ (run_analysis_gated a df st (Hgate a))).
Qed.

Lemma concat_header_tail (rest : list string) :
  ∃ tail, String.concat newline (report_header :: rest) = report_header +:+ tail.
Proof.
  destruct rest as [|l rest].
  - by exists "".
  - by eexists.
Qed.

(** C2: on a table with no gating column set, [main] writes the header
    line alone to the hypothesis report, not the placeholder; the
    placeholder text is never the content of that file, whatever the state,
    because the list of lines starts out with the header. *)
Theorem no_tests_report_is_header (df0 : DataFrame) (dq : string) :
  (enrich df0).1 = Ok tt ->
  quality_report (enrich df0).2 (outlier_counts (enrich df0).2) = Ok dq ->
  (∀ a, issubset (required a) (enrich df0).2 = false) ->
  main df0 init_state
  = (Ok tt,
     mkState [] "" [] ""
       [("reports/data_quality_report.md", dq);
        ("reports/hypothesis_testing.md", report_header);
        ("reports/insight_summary.md", insight_summary)])
  ∧ report_header ≠ no_eligible_placeholder
  ∧ (∀ st, hypothesis_text st ≠ no_eligible_placeholder).
Proof.
  intros Henrich Hdq Hgate. split; [|split].
  - unfold main. destruct (enrich df0) as [r df]; simpl in *; subst r.
    unfold bind at 1, lift at 1. rewrite Hdq.
    unfold bind at 1, modify at 1.
    erewrite bind_ok; [|rewrite analyses_run_all; by apply run_all_gated]. done.
  - done.
  - intros st. unfold hypothesis_text, hyp_lines. cbn [app].
    destruct (concat_header_tail
                ((match results st with [] => [] | rs => map format_result rs end)
                 ++ (if decide (corr_line st = "") then [] else ["- " +:+ corr_line st])
                 ++ (if decide (reg_line st = "") then [] else ["- " +:+ reg_line st])))
      as [tail ->].
    unfold report_header, no_eligible_placeholder, newline. simpl. discriminate.
Qed.


End AnalysisClaims.


Lemma no_tests_report_is_header_witness :
  main (E := fixture) table_no_known_column init_state
  = (Ok tt,
     mkState [] "" [] ""
       [("reports/data_quality_report.md", "");
        ("reports/hypothesis_testing.md", report_header);
        ("reports/insight_summary.md", insight_summary)]).
Proof.
  apply (no_tests_report_is_header (E := fixture) table_no_known_column "");
    [done | done | by intros []].
Defined.


(** ** Contingency tables *)

Lemma select_all {A} (keep : list bool) (l : list A) :
  Forall (fun k => k = true) keep -> length keep = length l -> select keep l = l.
Proof.
  intros Hk. revert l.
  induction Hk as [|k keep -> _ IH]; intros [|x l] Hlen; simpl in *; try done.
  f_equal. apply IH. lia.
Qed.

Lemma map_fixed {A} (f : A -> A) (l : list A) :
  Forall (fun x => f x = x) l -> map f l = l.
Proof. induction 1 as [|x l Hx _ IH]; simpl; congruence. Qed.

Lemma elem_of_sorted_labels (l : list cell) (x : cell) :
  x ∈ sorted_labels l <-> x ∈ l ∧ x ≠ NaN.
Proof.
  unfold sorted_labels.
  rewrite merge_sort_Permutation, elem_of_remove_dups, list_elem_of_filter.
  tauto.
Qed.

Lemma sorted_labels_nil (l : list cell) :
  sorted_labels l = [] <-> ∀ x, x ∈ l -> x = NaN.
Proof.
  split.
  - intros Hnil x Hx. destruct (decide (x = NaN)) as [|Hne]; [done|].
    assert (x ∈ sorted_labels l) as Hin by by apply elem_of_sorted_labels.
    rewrite Hnil in Hin. by apply not_elem_of_nil in Hin.
  - intros Hall. destruct (sorted_labels l) as [|x rest] eqn:Hs; [done|].
    assert (x ∈ sorted_labels l) as Hin by (rewrite Hs; left).
    apply elem_of_sorted_labels in Hin as [Hin Hne]. by apply Hall in Hin.
Qed.

Lemma crosstab_well_shaped (a b : Series) : well_shaped (crosstab a b).
Proof.
  unfold crosstab, well_shaped; cbn [ct_counts ct_index ct_columns].
  set (obs := filter (fun o : cell * cell => o.1 ≠ NaN ∧ o.2 ≠ NaN)
                     (zip (values a) (values b))).
  assert (∀ o, o ∈ obs -> o.1 ≠ NaN ∧ o.2 ≠ NaN) as Hobs.
  { intros o Ho. unfold obs in Ho. by apply list_elem_of_filter in Ho as [? _]. }
  split; [by rewrite length_map|]. split.
  - apply Forall_forall. intros row Hrow.
    apply list_elem_of_fmap in Hrow as (r & -> & _). by rewrite length_map.
  - rewrite !sorted_labels_nil. split.
    + intros Hrows y Hy. apply list_elem_of_fmap in Hy as (o & -> & Ho).
      destruct (Hobs o Ho) as [Hfst _]. exfalso. apply Hfst, Hrows.
      by apply list_elem_of_fmap_2.
    + intros Hcols x Hx. apply list_elem_of_fmap in Hx as (o & -> & Ho).
      destruct (Hobs o Ho) as [_ Hsnd]. exfalso. apply Hsnd, Hcols.
      by apply list_elem_of_fmap_2.
Qed.

Lemma any_below_false (tab : Crosstab) (m : nat) :
  any_below tab m = false ->
  Forall (Forall (fun n => (m ≤ n)%nat)) (ct_counts tab).
Proof.
  unfold any_below. induction (ct_counts tab) as [|row rows IH]; [done|].
  simpl. intros [Hrow Hrows]%orb_false_iff. constructor; [|by apply IH].
  clear -Hrow. induction row as [|n row IH]; [done|].
  simpl in Hrow. apply orb_false_iff in Hrow as [Hn Hrow].
  constructor; [|by apply IH]. apply bool_decide_eq_false in Hn. lia.
Qed.

Lemma sum_list_dense (m : nat) (row : list nat) :
  row ≠ [] -> Forall (fun n => (m ≤ n)%nat) row -> (m ≤ sum_list row)%nat.
Proof. intros Hne Hrow. destruct Hrow as [|n row Hn _]; [done|]. simpl. lia. Qed.

Lemma zip_with_add_dense (m : nat) (row acc : list nat) :
  Forall (fun n => (m ≤ n)%nat) row -> length row = length acc ->
  Forall (fun n => (m ≤ n)%nat) (zip_with Nat.add row acc).
Proof.
  intros Hrow. revert acc.
  induction Hrow as [|n row Hn _ IH]; intros [|k acc] Hlen; simpl in *; try done.
  constructor; [lia | apply IH; lia].
Qed.

Lemma col_sums_length (cols : list cell) (counts : list (list nat)) :
  Forall (fun row => length row = length cols) counts ->
  length (foldr (zip_with Nat.add) (map (fun _ => 0) cols) counts) = length cols.
Proof.
  induction 1 as [|row counts Hrow _ IH]; simpl; [by rewrite length_map|].
  rewrite length_zip_with, IH, Hrow. lia.
Qed.

(** A table with no count below the minimum has no marginal total below it
    either, so pruning by marginals keeps all of it. *)
Lemma prune_marginals_dense (tab : Crosstab) (m : nat) :
  well_shaped tab -> any_below tab m = false -> prune_marginals tab m = tab.
Proof.
  intros (Hlen & Hrows & Hempty) Hdense%any_below_false.
  destruct tab as [index columns counts]; simpl in *.
  unfold prune_marginals, loc_masks, row_sums, col_sums; simpl.
  assert (Forall (fun k => k = true)
            (map (fun total => bool_decide (m ≤ total)%nat) (map sum_list counts)))
    as Hrm.
  { rewrite <-list_fmap_compose. apply Forall_fmap, Forall_forall.
    intros row Hrow. simpl. apply bool_decide_eq_true_2.
    rewrite Forall_forall in Hrows, Hdense.
    apply sum_list_dense; [|by apply Hdense].
    intros ->. specialize (Hrows _ Hrow). simpl in Hrows.
    assert (columns = []) as Hc by (by destruct columns).
    apply Hempty in Hc. subst index. destruct counts; [|done].
    by apply not_elem_of_nil in Hrow. }
  assert (Forall (fun k => k = true)
            (map (fun total => bool_decide (m ≤ total)%nat)
                 (foldr (zip_with Nat.add) (map (fun _ => 0) columns) counts)))
    as Hcm.
  { apply Forall_fmap.
    destruct counts as [|row counts].
    - destruct index; [|done]. destruct Hempty as [Hnil _].
      rewrite (Hnil eq_refl). constructor.
    - simpl. apply Forall_impl with (P := fun n => (m ≤ n)%nat).
      + apply zip_with_add_dense; [by inversion Hdense|].
        inversion Hrows; subst. rewrite col_sums_length by done. done.
      + intros n Hn. simpl. by apply bool_decide_eq_true_2. }
  assert (length (map (fun total => bool_decide (m ≤ total)%nat)
                      (foldr (zip_with Nat.add) (map (fun _ => 0) columns) counts))
          = length columns) as Hcl.
  { by rewrite length_map, col_sums_length. }
  f_equal.
  - apply select_all; [done|]. by rewrite !length_map.
  - by apply select_all.
  - rewrite select_all; [|done|by rewrite !length_map].
    apply map_fixed, Forall_impl with (1 := Hrows). intros row Hrow.
    apply select_all; [done|]. by rewrite Hcl.
Qed.

Lemma prune_if_sparse_marginals (tab : Crosstab) (m : nat) :
  well_shaped tab -> prune_if_sparse tab m = prune_marginals tab m.
Proof.
  intros Hshape. unfold prune_if_sparse.
  destruct (any_below tab m) eqn:Hany; [done|].
  symmetry. by apply prune_marginals_dense.
Qed.

(** ** The regression rows *)

Lemma lookup_label_zip (idx : list nat) (xs : list cell) (k i : nat) (d : Qc) :
  NoDup idx -> idx !! k = Some i -> xs !! k = Some (Num d) ->
  lookup_label i (dropna_indexed (zip idx xs)) = Some d.
Proof.
  intros Hnd. revert xs k.
  induction Hnd as [|j idx Hj Hnd IH]; intros [|c xs] [|k] Hi Hx; try done.
  - simpl in *. simplify_eq. simpl. by rewrite decide_True.
  - simpl in Hi, Hx.
    assert (j ≠ i) as Hji.
    { intros ->. apply Hj. by eapply list_elem_of_lookup_2. }
    unfold dropna_indexed. cbn [zip zip_with omap list_omap]. cbn [fst snd].
    destruct c as [|q|s]; cbn [lookup_label];
      rewrite ?decide_False by done; by eapply IH.
Qed.

Lemma loc_aligned (s : list (nat * Qc)) (idx : list nat) (xs ys : list cell) :
  length xs = length idx -> length ys = length idx ->
  (∀ k i q, idx !! k = Some i -> ys !! k = Some (Num q) ->
            ∃ d, xs !! k = Some (Num d) ∧ lookup_label i s = Some d) ->
  loc s (dropna_indexed (zip idx ys)).*1 = Ok (discount_on_rows idx xs ys).
Proof.
  revert xs ys. induction idx as [|i idx IH]; intros [|cx xs] [|cy ys] Hx Hy Hrows;
    try done.
  simpl in Hx, Hy.
  assert (loc s (dropna_indexed (zip idx ys)).*1 = Ok (discount_on_rows idx xs ys))
    as Hrest.
  { apply IH; [lia | lia |]. intros k j q Hj Hq. by apply (Hrows (S k) j q). }
  unfold dropna_indexed, discount_on_rows in *.
  cbn [zip zip_with omap list_omap]. cbn [fst snd].
  destruct cy as [|q|t]; [done| |done].
  destruct (Hrows 0 i q eq_refl eq_refl) as (d & Hd & Hlook).
  simpl in Hd. simplify_eq. cbn [fmap list_fmap fst loc].
  by rewrite Hlook, Hrest.
Qed.

Lemma loc_labels (s : list (nat * Qc)) (wanted : list nat) (found : list (nat * Qc)) :
  loc s wanted = Ok found -> found.*1 = wanted.
Proof.
  revert found. induction wanted as [|i wanted IH]; intros found Hloc; simpl in Hloc.
  - by simplify_eq.
  - destruct (lookup_label i s) as [q|]; [|done].
    destruct (loc s wanted) as [r|e]; [|done].
    simplify_eq. simpl. f_equal. by apply IH.
Qed.

Lemma getitem_length (df : DataFrame) (name : string) (s : Series) :
  well_formed df -> getitem df name = Some s ->
  length (values s) = length (df_index df).
Proof.
  intros (_ & _ & Hlen) Hget. unfold getitem in Hget.
  induction Hlen as [|[n c] cols Hc _ IH]; [done|].
  simpl in Hget. destruct (decide (n = name)); [by simplify_eq | by apply IH].
Qed.

Lemma well_formed_eval (df : DataFrame) :
  bool_decide (NoDup (df_index df)) = true ->
  bool_decide (NoDup (column_names df)) = true ->
  forallb (fun c => bool_decide (length (values c.2) = length (df_index df)))
          (df_columns df) = true ->
  well_formed df.
Proof.
  intros H1%bool_decide_eq_true H2%bool_decide_eq_true H3.
  split; [done|]. split; [done|].
  apply Forall_forall. intros c Hc.
  rewrite forallb_forall in H3. apply list_elem_of_In, H3 in Hc.
  by apply bool_decide_eq_true in Hc.
Qed.

(** With a discount missing on a row where quantity has a value, aligning
    the discount to the quantity rows looks up a label that is not there,
    and the step raises KeyError instead of fitting. *)
Lemma regression_raises_on_missing_discount : ¬ regression_runs_on_quantity_rows.
Proof.
  intros Hspec.
  assert (well_formed table_discount_missing) as Hwf.
  { by apply well_formed_eval; vm_compute. }
  destruct (Hspec fixture table_discount_missing
              (mkSeries Float64 [Num (qz 10); NaN])
              (mkSeries Float64 [Num (qz 1); Num (qz 2)])
              Hwf eq_refl eq_refl eq_refl eq_refl) as (x_rows & _ & Hrun).
  specialize (Hrun init_state). vm_compute in Hrun. discriminate.
Qed.

Example regression_raises_key_error :
  h5_regression (E := fixture) table_discount_missing init_state
  = (Raise KeyError, init_state).
Proof. by vm_compute. Qed.

Lemma revenue_derived_witness :
  getitem (enrich (E := fixture) table_price_quantity).2 "Revenue"
  = Some (mkSeries Int64 [Num (qz 20); Num (qz 60)])
  ∧ getitem (enrich (E := fixture) table_price_overflow).2 "Revenue"
    = Some (mkSeries Int64 [Num (qz 0)])
  ∧ getitem (enrich (E := fixture) table_price_float).2 "Revenue"
    = Some (mkSeries Float64
              (zip_with (mul_float64 (E := fixture))
                        [Num (Q2Qc (5 # 2)); NaN] [Num (qz 4); Num (qz 1)]))
  ∧ getitem (enrich (E := fixture) table_with_revenue).2 "Revenue"
    = Some (mkSeries Float64 [Num (qz 7); NaN]).
Proof.
  destruct (revenue_derived (E := fixture))
    as (Hint & _ & _ & Hfloat & _ & _ & Hexample & Hkept).
  split; [exact Hexample|]. split; [|split].
  - destruct (Hint table_price_overflow
                (mkSeries Int64 [Num (qz (2 ^ 62))]) (mkSeries Int64 [Num (qz 4)]))
      as [_ ->]; done.
  - apply (Hfloat table_price_float
             (mkSeries Float64 [Num (Q2Qc (5 # 2)); NaN])
             (mkSeries Int64 [Num (qz 4); Num (qz 1)])); try reflexivity.
    by left.
  - apply (Hkept table_with_revenue). reflexivity.
Defined.

(** C6, the claim as written fails: the product of two int64 columns is an
    int64, so 2^62 times 4 gives 0, not 2^64. *)
Lemma revenue_wraps_at_int64 : ¬ revenue_is_price_times_quantity.
Proof.
  intros Hspec.
  destruct (Hspec fixture table_price_overflow
              (mkSeries Int64 [Num (qz (2 ^ 62))]) (mkSeries Int64 [Num (qz 4)])
              eq_refl eq_refl eq_refl) as (revenue & Hget & Hvalues).
  destruct (enrich_adds_revenue (E := fixture) table_price_overflow
              (mkSeries Int64 [Num (qz (2 ^ 62))]) (mkSeries Int64 [Num (qz 4)])
              (mkSeries Int64 [Num (qz 0)])) as [_ Hrev]; try done.
  rewrite Hrev in Hget. injection Hget as <-. cbn in Hvalues.
  injection Hvalues as Hq. discriminate Hq.
Qed.

Lemma enrichment_frame_witness :
  getitem (enrich (E := fixture) table_with_revenue).2 "Price"
  = getitem table_with_revenue "Price".
Proof.
  destruct (enrichment_frame (E := fixture) table_with_revenue)
    as (_ & _ & Hother & _).
  apply Hother; [done | done |].
  apply (bool_decide_unpack _). by vm_compute.
Defined.

(** * Further properties of the program *)

(** ** The table invariant through the enrichment *)

Lemma Forall_assign (P : string * Series -> Prop) name s cols :
  Forall P cols -> P (name, s) -> Forall P (assign name s cols).
Proof.
  intros Hcols Hs. induction Hcols as [|[n c] cols Hc Hrest IH]; simpl.
  - by constructor.
  - destruct (decide (n = name)) as [->|Hn]; by constructor.
Qed.

Lemma setitem_well_formed df name s :
  well_formed df -> length (values s) = length (df_index df) ->
  well_formed (setitem df name s).
Proof.
  intros (Hidx & Hnames & Hlen) Hs. split; [exact Hidx|]. split.
  - rewrite column_names_setitem. destruct (has_column name df) eqn:Hhas; [done|].
    apply NoDup_app. split; [done|]. split; [|apply NoDup_singleton].
    intros n Hn ->%list_elem_of_singleton.
    unfold has_column in Hhas. by apply bool_decide_eq_false in Hhas.
  - by apply Forall_assign.
Qed.

Lemma cut_length s edges labs grouped :
  cut s edges labs = Ok grouped -> length (values grouped) = length (values s).
Proof.
  unfold cut. destruct (negb (bins_ok edges)); [done|].
  destruct (negb (is_number (dtype_of s))); [done|].
  destruct (negb (labels_ok edges labs)); [done|].
  intros [= <-]. simpl. by rewrite length_map.
Qed.

Section EnrichmentInvariant.
Context {E : Externals}.

Lemma series_mul_length a b r :
  length_preserving -> length (values a) = length (values b) ->
  series_mul a b = Ok r -> length (values r) = length (values a).
Proof.
  intros [_ Hmul] Hab. unfold series_mul.
  destruct (dtype_of a), (dtype_of b); try (by apply Hmul);
    intros [= <-]; simpl; rewrite length_zip_with; lia.
Qed.

(** X1: a well-formed table stays well formed through the enrichment: the
    row labels are untouched, the column names stay distinct, and every
    column, old or derived, is as long as the index, provided the date
    parser and the non-numeric product return columns of the length they
    were given. *)
Theorem enrich_keeps_well_formed (df : DataFrame) :
  length_preserving -> well_formed df -> well_formed (enrich df).2.
Proof.
  intros Hext Hwf. rewrite enrich_unfold.
  assert (well_formed (enrich_order_date df).2) as Hwf1.
  { destruct (enrich_order_date_state df) as [->|(col & parsed & Hc & Hp & ->)]; [done|].
    apply setitem_well_formed; [done|].
    destruct Hext as [Hdate _]. rewrite (Hdate _ _ Hp). by eapply getitem_length. }
  set (d1 := (enrich_order_date df).2) in *.
  assert (well_formed (enrich_age_group d1).2) as Hwf2.
  { destruct (enrich_age_group_state d1) as [->|(age & g & Hage & Hcut & ->)]; [done|].
    apply setitem_well_formed; [done|].
    rewrite (cut_length _ _ _ _ Hcut). by eapply getitem_length. }
  set (d2 := (enrich_age_group d1).2) in *.
  destruct (enrich_revenue_state d2) as [->|(p & q & r & _ & Hp & Hq & Hm & ->)]; [done|].
  apply setitem_well_formed; [done|].
  assert (length (values p) = length (values q)) as Hpq.
  { rewrite (getitem_length _ _ _ Hwf2 Hp). symmetry. by eapply getitem_length. }
  rewrite (series_mul_length _ _ _ Hext Hpq Hm). by eapply getitem_length.
Qed.

End EnrichmentInvariant.

Lemma fixture_length_preserving : length_preserving (E := fixture).
Proof. split; intros; discriminate. Qed.

Lemma enrich_keeps_well_formed_witness :
  well_formed table_price_quantity
  ∧ well_formed (enrich (E := fixture) table_price_quantity).2.
Proof.
  assert (well_formed table_price_quantity) as Hwf.
  { by apply well_formed_eval; vm_compute. }
  split; [done|].
  apply (enrich_keeps_well_formed (E := fixture) table_price_quantity
           fixture_length_preserving Hwf).
Defined.

(** ** Binning *)

(** X2: on sorted edges the position [searchsorted_left] returns is the
    insertion point on the left: every edge before it is strictly below the
    value and every edge from it on is at or above the value. *)
Theorem searchsorted_left_insertion_point (edges : list Qc) (x : Qc) :
  Sorted Qcle edges ->
  Forall (fun b => b < x)%Qc (take (searchsorted_left edges x) edges)
  ∧ Forall (fun b => x ≤ b)%Qc (drop (searchsorted_left edges x) edges).
Proof.
  intros Hsorted%Sorted_StronglySorted; [|apply _].
  induction Hsorted as [|b rest Hrest IH Hb]; [by split|].
  simpl. case_bool_decide as Hlt.
  - destruct IH as [IHt IHd]. simpl. split; [by constructor | done].
  - simpl. split; [done|].
    apply Qcnot_lt_le in Hlt. constructor; [done|].
    apply Forall_impl with (1 := Hb). intros c Hc. by apply Qcle_trans with b.
Qed.

Lemma searchsorted_left_insertion_point_witness :
  Forall (fun b => b < qz 30)%Qc (take (searchsorted_left bins (qz 30)) bins)
  ∧ Forall (fun b => qz 30 ≤ b)%Qc (drop (searchsorted_left bins (qz 30)) bins).
Proof.
  apply searchsorted_left_insertion_point.
  repeat constructor; unfold Qcle, Qle; simpl; lia.
Defined.







(** ** Quantiles and the IQR bounds *)

Local Open Scope Qc_scope.

Lemma qz_0 : qz 0 = 0.
Proof. by apply Qc_is_canon. Qed.

Lemma qz_nonneg (k : nat) : 0 ≤ qz (Z.of_nat k).
Proof. unfold Qcle, Qle; simpl. lia. Qed.

Lemma floor_nonneg (h : Qc) : 0 ≤ h -> (0 ≤ Qfloor h)%Z.
Proof. intros Hh. rewrite <-(Qfloor_Z 0). by apply Qfloor_resp_le. Qed.

Lemma floor_below (h : Qc) : 0 ≤ h -> qz (Z.of_nat (Z.to_nat (Qfloor h))) ≤ h.
Proof.
  intros Hh. rewrite Z2Nat.id by by apply floor_nonneg.
  unfold Qcle; simpl. apply Qfloor_le.
Qed.

Lemma floor_above (h : Qc) : 0 ≤ h -> h - qz (Z.of_nat (Z.to_nat (Qfloor h))) ≤ 1.
Proof.
  intros Hh. rewrite Z2Nat.id by by apply floor_nonneg.
  apply Qclt_le_weak. unfold Qclt, Qcminus, Qcplus, Qcopp. simpl.
  rewrite !Qred_correct.
  pose proof (Qlt_floor h) as Hlt. rewrite inject_Z_plus in Hlt.
  apply Qplus_lt_l with (z := inject_Z (Qfloor h)). ring_simplify.
  exact Hlt.
Qed.

Lemma floor_mono (h h' : Qc) :
  0 ≤ h -> h ≤ h' -> (Z.to_nat (Qfloor h) ≤ Z.to_nat (Qfloor h'))%nat.
Proof. intros Hh Hle. apply Z2Nat.inj_le; [by apply floor_nonneg | | by apply Qfloor_resp_le].
  apply floor_nonneg. by apply Qcle_trans with h. Qed.

Lemma minus_nonneg (a b : Qc) : a ≤ b -> 0 ≤ b - a.
Proof. intros Hab. exact (proj1 (Qcle_minus_iff a b) Hab). Qed.

Lemma lerp_between (a b f : Qc) :
  a ≤ b -> 0 ≤ f -> f ≤ 1 -> a ≤ a + f * (b - a) ∧ a + f * (b - a) ≤ b.
Proof.
  intros Hab H0 H1. pose proof (minus_nonneg _ _ Hab) as Hd. split.
  - apply Qcle_trans with (a + 0 * (b - a)).
    + replace (a + 0 * (b - a)) with a by ring. apply Qcle_refl.
    + apply (proj1 (Qcplus_le_mono_l _ _ _)). by apply Qcmult_le_mono_nonneg_r.
  - apply Qcle_trans with (a + 1 * (b - a)).
    + apply (proj1 (Qcplus_le_mono_l _ _ _)). by apply Qcmult_le_mono_nonneg_r.
    + replace (a + 1 * (b - a)) with b by ring. apply Qcle_refl.
Qed.

Lemma lerp_mono (a b f f' : Qc) :
  a ≤ b -> f ≤ f' -> a + f * (b - a) ≤ a + f' * (b - a).
Proof.
  intros Hab Hf. apply (proj1 (Qcplus_le_mono_l _ _ _)).
  apply Qcmult_le_mono_nonneg_r; [by apply minus_nonneg | done].
Qed.

Lemma sorted_lookup_le (l : list Qc) (i j : nat) (x y : Qc) :
  StronglySorted Qcle l -> (i ≤ j)%nat -> l !! i = Some x -> l !! j = Some y -> x ≤ y.
Proof.
  intros Hs. revert i j. induction Hs as [|c rest Hrest IH Hc]; intros i j Hij Hi Hj.
  - done.
  - destruct i as [|i], j as [|j]; simpl in *; simplify_eq.
    + apply Qcle_refl.
    + rewrite Forall_forall in Hc. apply Hc. by eapply list_elem_of_lookup_2.
    + lia.
    + apply (IH i j); [lia | done | done].
Qed.

(** The interpolated value lies between the two neighbours of its position. *)
Lemma interpolate_between (l : list Qc) (h v : Qc) :
  StronglySorted Qcle l -> 0 ≤ h -> interpolate l h = Some v ->
  ∃ a b, l !! Z.to_nat (Qfloor h) = Some a ∧ a ≤ v ∧ v ≤ b ∧ b ∈ l
         ∧ (∀ y, l !! S (Z.to_nat (Qfloor h)) = Some y -> v ≤ y).
Proof.
  intros Hs Hh. unfold interpolate.
  destruct (l !! Z.to_nat (Qfloor h)) as [a|] eqn:Ha; [|done].
  destruct (l !! S (Z.to_nat (Qfloor h))) as [b|] eqn:Hb; intros [= <-].
  - assert (a ≤ b) as Hab by (eapply (sorted_lookup_le l); [done | | done | done]; lia).
    destruct (lerp_between a b (h - qz (Z.of_nat (Z.to_nat (Qfloor h)))) Hab) as [H1 H2].
    + apply minus_nonneg. by apply floor_below.
    + by apply floor_above.
    + exists a, b. repeat split; [done | done | by eapply list_elem_of_lookup_2 |].
      by intros y [= <-].
  - exists a, a. repeat split; [apply Qcle_refl | apply Qcle_refl
                              | by eapply list_elem_of_lookup_2 | done].
Qed.

Lemma interpolate_mono (l : list Qc) (h h' a b : Qc) :
  StronglySorted Qcle l -> 0 ≤ h -> h ≤ h' ->
  interpolate l h = Some a -> interpolate l h' = Some b -> a ≤ b.
Proof.
  intros Hs Hh Hle Ha Hb.
  assert (0 ≤ h') as Hh' by by apply Qcle_trans with h.
  pose proof (floor_mono h h' Hh Hle) as Hlo.
  destruct (decide (Z.to_nat (Qfloor h) = Z.to_nat (Qfloor h'))) as [Heq|Hne].
  - unfold interpolate in *. rewrite <-Heq in Hb.
    destruct (l !! Z.to_nat (Qfloor h)) as [x|] eqn:Hx; [|done].
    destruct (l !! S (Z.to_nat (Qfloor h))) as [y|] eqn:Hy; simplify_eq.
    + apply lerp_mono.
      * eapply (sorted_lookup_le l); [done | | done | done]. lia.
      * by apply (proj1 (Qcplus_le_mono_r _ _ _)).
    + apply Qcle_refl.
  - destruct (interpolate_between l h a Hs Hh Ha) as (x & y & Hx & _ & _ & _ & Hnext).
    destruct (interpolate_between l h' b Hs Hh' Hb) as (x' & y' & Hx' & Hxb & _).
    assert (is_Some (l !! S (Z.to_nat (Qfloor h)))) as [z Hz].
    { apply lookup_lt_is_Some. apply lookup_lt_Some in Hx'. lia. }
    apply Qcle_trans with z; [by apply Hnext|].
    apply Qcle_trans with x'; [|done].
    eapply (sorted_lookup_le l); [done | | done | done]. lia.
Qed.

Lemma quantile_interpolate (s : list Qc) (q : Qc) :
  quantile s q
  = interpolate (merge_sort Qcle s) (qz (Z.of_nat (length s - 1)) * q).
Proof. done. Qed.

Lemma position_nonneg (k : nat) (q : Qc) : 0 ≤ q -> 0 ≤ qz (Z.of_nat k) * q.
Proof.
  intros Hq. rewrite <-(Qcmult_0_r (qz (Z.of_nat k))).
  apply Qcmult_le_mono_nonneg_l; [apply qz_nonneg | done].
Qed.

Lemma merge_sort_strongly_sorted (s : list Qc) : StronglySorted Qcle (merge_sort Qcle s).
Proof. apply StronglySorted_merge_sort; apply _. Qed.

(** X4: a quantile is monotone in its level: for levels [0 ≤ p ≤ q] the
    [p]-quantile of a column is at most its [q]-quantile. *)
Theorem quantile_monotone (s : list Qc) (p q a b : Qc) :
  0 ≤ p -> p ≤ q -> quantile s p = Some a -> quantile s q = Some b -> a ≤ b.
Proof.
  intros Hp Hpq. rewrite !quantile_interpolate.
  apply interpolate_mono.
  - apply merge_sort_strongly_sorted.
  - by apply position_nonneg.
  - apply Qcmult_le_mono_nonneg_l; [apply qz_nonneg | done].
Qed.

(** X5: a quantile of non-negative level lies between two values of the
    column: it is never below the smallest nor above the largest. *)
Theorem quantile_within_values (s : list Qc) (q v : Qc) :
  0 ≤ q -> quantile s q = Some v -> ∃ x y, x ∈ s ∧ y ∈ s ∧ x ≤ v ∧ v ≤ y.
Proof.
  intros Hq. rewrite quantile_interpolate. intros Hv.
  destruct (interpolate_between _ _ _ (merge_sort_strongly_sorted s)
              (position_nonneg _ _ Hq) Hv) as (a & b & Ha & Hav & Hvb & Hb & _).
  exists a, b. apply list_elem_of_lookup_2 in Ha.
  rewrite merge_sort_Permutation in Ha, Hb. done.
Qed.

Lemma quartile_levels : 0 ≤ q025 ∧ q025 ≤ q075.
Proof. split; unfold Qcle, Qle; simpl; lia. Qed.

Lemma k15_nonneg : 0 ≤ k15.
Proof. unfold Qcle, Qle; simpl; lia. Qed.

(** X6: whenever the bounds exist they enclose both quartiles,
    [lower ≤ Q1 ≤ Q3 ≤ upper], so a value between the first and the third
    quartile is never flagged. *)
Theorem iqr_bounds_enclose_quartiles (s : list Qc) (lower upper : Qc) :
  iqr_bounds s = Some (lower, upper) ->
  ∃ q1 q3, quantile s q025 = Some q1 ∧ quantile s q075 = Some q3
           ∧ lower ≤ q1 ∧ q1 ≤ q3 ∧ q3 ≤ upper
           ∧ ∀ x, q1 ≤ x -> x ≤ q3 -> ¬ outside lower upper x.
Proof.
  unfold iqr_bounds.
  destruct (quantile s q025) as [q1|] eqn:H1; [|done].
  destruct (quantile s q075) as [q3|] eqn:H3; [|done].
  intros [= <- <-]. exists q1, q3.
  destruct quartile_levels as [Hl0 Hl].
  assert (q1 ≤ q3) as H13.
  { pose proof H1 as H1'. pose proof H3 as H3'.
    rewrite quantile_interpolate in H1', H3'.
    eapply interpolate_mono; [apply merge_sort_strongly_sorted | | | exact H1' | exact H3'].
    - by apply position_nonneg.
    - apply Qcmult_le_mono_nonneg_l; [apply qz_nonneg | done]. }
  assert (0 ≤ k15 * (q3 - q1)) as Hk.
  { rewrite <-(Qcmult_0_r k15).
    apply Qcmult_le_mono_nonneg_l; [apply k15_nonneg | by apply minus_nonneg]. }
  assert (q1 - k15 * (q3 - q1) ≤ q1) as Hlow.
  { apply (proj2 (Qcle_minus_iff _ _)).
    by replace (q1 + - (q1 - k15 * (q3 - q1))) with (k15 * (q3 - q1)) by ring. }
  assert (q3 ≤ q3 + k15 * (q3 - q1)) as Hup.
  { apply Qcle_trans with (q3 + 0); [rewrite Qcplus_0_r; apply Qcle_refl|].
    by apply (proj1 (Qcplus_le_mono_l _ _ _)). }
  repeat split; try done.
  intros x Hx1 Hx3 [Hout|Hout].
  - apply (Qclt_not_le _ _ Hout). by apply Qcle_trans with q1.
  - apply (Qclt_not_le _ _ Hout). by apply Qcle_trans with q3.
Qed.

Lemma quantile_monotone_witness :
  ∃ a b, quantile column_0112 q025 = Some a ∧ quantile column_0112 q075 = Some b ∧ a ≤ b.
Proof.
  destruct (quantile column_0112 q025) as [a|] eqn:Ha; [|by vm_compute in Ha].
  destruct (quantile column_0112 q075) as [b|] eqn:Hb; [|by vm_compute in Hb].
  exists a, b. split; [done|]. split; [done|].
  destruct quartile_levels as [H0 Hle].
  exact (quantile_monotone column_0112 q025 q075 a b H0 Hle Ha Hb).
Defined.

Lemma quantile_within_values_witness :
  ∃ v x y, quantile column_0112 q025 = Some v
           ∧ x ∈ column_0112 ∧ y ∈ column_0112 ∧ x ≤ v ∧ v ≤ y.
Proof.
  destruct (quantile column_0112 q025) as [v|] eqn:Hv; [|by vm_compute in Hv].
  destruct quartile_levels as [H0 _].
  destruct (quantile_within_values column_0112 q025 v H0 Hv) as (x & y & Hxy).
  exists v, x, y. by split.
Defined.

Lemma iqr_bounds_enclose_quartiles_witness :
  ∃ q1 q3, quantile column_0112 q025 = Some q1 ∧ quantile column_0112 q075 = Some q3
           ∧ qz 0 ≤ q1 ∧ q1 ≤ q3 ∧ q3 ≤ qz 2.
Proof.
  assert (iqr_bounds column_0112 = Some (qz 0, qz 2)) as Hb.
  { apply iqr_bounds_eval. by vm_compute. }
  destruct (iqr_bounds_enclose_quartiles column_0112 (qz 0) (qz 2) Hb)
    as (q1 & q3 & H1 & H3 & Hl & Hm & Hu & _).
  exists q1, q3. exact (conj H1 (conj H3 (conj Hl (conj Hm Hu)))).
Defined.

Lemma position_in_range (n : nat) (q : Qc) :
  0 ≤ q -> q ≤ 1 ->
  (Z.to_nat (Qfloor (qz (Z.of_nat (n - 1)) * q)%Qc) ≤ n - 1)%nat.
Proof.
  intros H0 H1.
  assert (qz (Z.of_nat (n - 1)) * q ≤ qz (Z.of_nat (n - 1))) as Hle.
  { apply Qcle_trans with (qz (Z.of_nat (n - 1)) * 1).
    - apply Qcmult_le_mono_nonneg_l; [apply qz_nonneg | done].
    - rewrite Qcmult_1_r. apply Qcle_refl. }
  apply Qfloor_resp_le in Hle.
  change (this (qz (Z.of_nat (n - 1)))) with (inject_Z (Z.of_nat (n - 1))) in Hle.
  rewrite Qfloor_Z in Hle.
  rewrite <-(Nat2Z.id (n - 1)) at 2. apply Z2Nat.inj_le; [|lia|exact Hle].
  apply floor_nonneg. by apply position_nonneg.
Qed.

(** X7: for a level between 0 and 1 the quantile is missing exactly for the
    empty column; in particular the IQR bounds exist for every non-empty
    column, and the empty column has no outliers. *)
Theorem quantile_missing_iff_empty (s : list Qc) (q : Qc) :
  0 ≤ q -> q ≤ 1 ->
  (quantile s q = None <-> s = [])
  ∧ (iqr_bounds s = None <-> s = [])
  ∧ iqr_outliers_count [] = 0%nat.
Proof.
  intros H0 H1.
  assert (∀ p, 0 ≤ p -> p ≤ 1 -> quantile s p = None <-> s = []) as Hq.
  { intros p Hp0 Hp1. split.
    - intros Hnone. destruct s as [|x s]; [done|]. exfalso.
      rewrite quantile_interpolate in Hnone. unfold interpolate in Hnone.
      pose proof (position_in_range (length (x :: s)) p Hp0 Hp1) as Hpos.
      destruct (merge_sort Qcle (x :: s) !! _) as [a|] eqn:Ha.
      + by destruct (merge_sort Qcle (x :: s) !! S _).
      + apply lookup_ge_None in Ha.
        rewrite (Permutation_length (merge_sort_Permutation Qcle (x :: s))) in Ha.
        simpl in *. lia.
    - by intros ->. }
  split; [by apply Hq|]. split; [|done].
  assert (q075 ≤ 1) as H75 by (unfold Qcle, Qle; simpl; lia).
  destruct quartile_levels as [H25 Hle].
  split.
  - unfold iqr_bounds. intros Hnone.
    destruct (quantile s q025) as [q1|] eqn:E1.
    + destruct (quantile s q075) as [q3|] eqn:E3; [done|].
      apply (Hq q075); [by apply Qcle_trans with q025 | done | done].
    + apply (Hq q025); [done | by apply Qcle_trans with q075 | done].
  - by intros ->.
Qed.

Lemma quantile_missing_iff_empty_witness :
  (quantile column_0112 q025 = None <-> column_0112 = [])
  ∧ (iqr_bounds column_0112 = None <-> column_0112 = []).
Proof.
  destruct (quantile_missing_iff_empty column_0112 q025) as (Hq & Hb & _).
  - unfold Qcle, Qle; simpl; lia.
  - unfold Qcle, Qle; simpl; lia.
  - by split.
Defined.

Lemma interpolate_constant (l : list Qc) (h v w : Qc) :
  StronglySorted Qcle l -> 0 ≤ h -> Forall (fun x => x = v) l ->
  interpolate l h = Some w -> w = v.
Proof.
  intros Hs Hh Hall Hw.
  destruct (interpolate_between l h w Hs Hh Hw) as (a & b & Ha & Haw & Hwb & Hb & _).
  rewrite Forall_forall in Hall.
  apply list_elem_of_lookup_2, Hall in Ha. apply Hall in Hb. subst.
  by apply Qcle_antisym.
Qed.

(** X8: a column whose values are all equal has no outliers: both
    quartiles are that value, the bounds collapse onto it and nothing lies
    outside. *)
Theorem constant_column_has_no_outliers (s : list Qc) (v : Qc) :
  Forall (fun x => x = v) s -> iqr_outliers_count s = 0%nat.
Proof.
  intros Hall. unfold iqr_outliers_count, iqr_bounds.
  assert (Forall (fun x => x = v) (merge_sort Qcle s)) as Hsorted.
  { by rewrite merge_sort_Permutation. }
  destruct quartile_levels as [H25 Hle].
  destruct (quantile s q025) as [q1|] eqn:E1; [|done].
  destruct (quantile s q075) as [q3|] eqn:E3; [|done].
  rewrite quantile_interpolate in E1, E3.
  apply (interpolate_constant _ _ v) in E1;
    [|apply merge_sort_strongly_sorted | by apply position_nonneg | done].
  apply (interpolate_constant _ _ v) in E3;
    [|apply merge_sort_strongly_sorted
     |apply position_nonneg; by apply Qcle_trans with q025 | done].
  subst q1 q3.
  replace (v - k15 * (v - v)) with v by ring.
  replace (v + k15 * (v - v)) with v by ring.
  clear Hsorted. induction Hall as [|x s -> _ IH]; [done|].
  rewrite filter_cons_False; [done|].
  intros [Hlt|Hlt]; by apply (Qclt_not_eq _ _ Hlt).
Qed.

Lemma constant_column_has_no_outliers_witness :
  iqr_outliers_count [qz 4; qz 4; qz 4; qz 4; qz 4] = 0%nat.
Proof.
  apply (constant_column_has_no_outliers _ (qz 4)). by repeat constructor.
Defined.

Local Close Scope Qc_scope.

(** ** Cross-tabulation: labels and marginal totals *)

Lemma sum_list_fmap_add {A} (f g : A -> nat) (l : list A) :
  sum_list (map (fun x => f x + g x) l) = sum_list (map f l) + sum_list (map g l).
Proof. induction l as [|x l IH]; simpl; lia. Qed.

Lemma sum_list_indicator {A} `{EqDecision A} (y : A) (l : list A) :
  NoDup l ->
  sum_list (map (fun x => if decide (y = x) then 1 else 0) l)
  = if decide (y ∈ l) then 1 else 0.
Proof.
  induction 1 as [|x l Hx Hnd IH].
  - destruct (decide (y ∈ [])) as [Hin|]; [by apply not_elem_of_nil in Hin | done].
  - cbn [map sum_list_with]. rewrite IH. unfold id.
    destruct (decide (y = x)) as [->|Hne].
    + destruct (decide (x ∈ l)); [done|].
      destruct (decide (x ∈ x :: l)) as [|Hnin]; [done|]. exfalso. apply Hnin. left.
    + destruct (decide (y ∈ l)) as [Hin|Hnin];
        destruct (decide (y ∈ x :: l)) as [Hin'|Hnin']; try done.
      * exfalso. apply Hnin'. by right.
      * apply elem_of_cons in Hin' as [?|?]; done.
Qed.

(** Counting the elements of a list key by key counts each element once. *)
Lemma sum_count_by_key {A B} `{EqDecision B} (key : A -> B) (l : list A) (keys : list B) :
  NoDup keys -> (∀ x, x ∈ l -> key x ∈ keys) ->
  sum_list (map (fun k => length (filter (fun x => key x = k) l)) keys) = length l.
Proof.
  intros Hnd. induction l as [|x l IH]; intros Hkeys.
  - clear. induction keys as [|k keys IHk]; [done|]. simpl in *. by rewrite IHk.
  - rewrite (list_fmap_ext _ (fun k => (if decide (key x = k) then 1 else 0)
                                       + length (filter (fun x => key x = k) l)) keys).
    + change (sum_list ((fun k => (if decide (key x = k) then 1 else 0)
                                     + length (filter (fun x0 => key x0 = k) l)) <$> keys))
        with (sum_list (map (fun k => (if decide (key x = k) then 1 else 0)
                                     + length (filter (fun x0 => key x0 = k) l)) keys)).
      rewrite sum_list_fmap_add, sum_list_indicator by done.
      rewrite decide_True by (apply Hkeys; left).
      rewrite IH; [done|]. intros y Hy. apply Hkeys. by right.
    + intros _ k _. rewrite filter_cons. by destruct (decide (key x = k)).
Qed.

Lemma count_pairs_nested (obs : list (cell * cell)) (r c : cell) :
  count_pairs obs r c
  = length (filter (fun o => o.2 = c) (filter (fun o => o.1 = r) obs)).
Proof.
  unfold count_pairs. induction obs as [|[x y] obs IH]; [done|].
  rewrite !filter_cons. simpl.
  destruct (decide (x = r)) as [->|Hx].
  - rewrite filter_cons. simpl. destruct (decide (y = c)) as [->|Hy].
    + rewrite decide_True by done. simpl. by rewrite IH.
    + rewrite decide_False by congruence. done.
  - rewrite decide_False by congruence. done.
Qed.

Lemma count_pairs_nested_swap (obs : list (cell * cell)) (r c : cell) :
  count_pairs obs r c
  = length (filter (fun o => o.1 = r) (filter (fun o => o.2 = c) obs)).
Proof.
  unfold count_pairs. induction obs as [|[x y] obs IH]; [done|].
  rewrite !filter_cons. simpl.
  destruct (decide (y = c)) as [->|Hy].
  - rewrite filter_cons. simpl. destruct (decide (x = r)) as [->|Hx].
    + rewrite decide_True by done. simpl. by rewrite IH.
    + rewrite decide_False by congruence. done.
  - rewrite decide_False by congruence. done.
Qed.

Lemma col_sums_by_column {A} (f : A -> cell -> nat) (rows : list A) (cols : list cell) :
  foldr (zip_with Nat.add) (map (fun _ => 0) cols) (map (fun r => map (f r) cols) rows)
  = map (fun c => sum_list (map (fun r => f r c) rows)) cols.
Proof.
  induction rows as [|r rows IH]; [done|].
  simpl. rewrite IH. clear IH.
  induction cols as [|c cols IHc]; [done|]. simpl. by rewrite IHc.
Qed.

Lemma NoDup_sorted_labels (l : list cell) : NoDup (sorted_labels l).
Proof.
  unfold sorted_labels. rewrite merge_sort_Permutation. apply NoDup_remove_dups.
Qed.

Lemma complete_pairs_labels (a b : Series) (o : cell * cell) :
  o ∈ complete_pairs a b ->
  o.1 ∈ sorted_labels (complete_pairs a b).*1
  ∧ o.2 ∈ sorted_labels (complete_pairs a b).*2.
Proof.
  intros Ho.
  assert (o.1 ≠ NaN ∧ o.2 ≠ NaN) as [H1 H2].
  { unfold complete_pairs in Ho. by apply list_elem_of_filter in Ho as [? _]. }
  split; apply elem_of_sorted_labels; (split; [by apply list_elem_of_fmap_2 | done]).
Qed.

Lemma row_sums_crosstab (a b : Series) :
  row_sums (crosstab a b)
  = map (fun r => length (filter (fun o => o.1 = r) (complete_pairs a b)))
        (ct_index (crosstab a b)).
Proof.
  unfold row_sums, crosstab. cbn [ct_counts ct_index].
  fold (complete_pairs a b). rewrite map_map. apply map_ext_in.
  intros r _.
  rewrite (map_ext _ (fun c => length (filter (fun o => o.2 = c)
                                 (filter (fun o => o.1 = r) (complete_pairs a b)))))
    by (intros c; apply count_pairs_nested).
  apply (sum_count_by_key snd); [apply NoDup_sorted_labels|].
  intros o [_ Ho]%list_elem_of_filter. by apply complete_pairs_labels.
Qed.

Lemma col_sums_crosstab (a b : Series) :
  col_sums (crosstab a b)
  = map (fun c => length (filter (fun o => o.2 = c) (complete_pairs a b)))
        (ct_columns (crosstab a b)).
Proof.
  unfold col_sums, crosstab. cbn [ct_counts ct_columns].
  fold (complete_pairs a b). rewrite col_sums_by_column. apply map_ext_in.
  intros c _.
  rewrite (map_ext _ (fun r => length (filter (fun o => o.1 = r)
                                 (filter (fun o => o.2 = c) (complete_pairs a b)))))
    by (intros r; apply count_pairs_nested_swap).
  apply (sum_count_by_key fst); [apply NoDup_sorted_labels|].
  intros o [_ Ho]%list_elem_of_filter. by apply complete_pairs_labels.
Qed.

(** X9: the marginal totals of a cross-tabulation count observations: the
    total of a row (column) is the number of rows of the data that carry
    its label and have a value in both columns; the totals add up, by rows
    and by columns, to the number of rows with both values; and no row or
    column of the table is empty. *)
Theorem crosstab_marginals (a b : Series) :
  row_sums (crosstab a b)
  = map (fun r => length (filter (fun o => o.1 = r) (complete_pairs a b)))
        (ct_index (crosstab a b))
  ∧ col_sums (crosstab a b)
    = map (fun c => length (filter (fun o => o.2 = c) (complete_pairs a b)))
          (ct_columns (crosstab a b))
  ∧ sum_list (row_sums (crosstab a b)) = length (complete_pairs a b)
  ∧ sum_list (col_sums (crosstab a b)) = length (complete_pairs a b)
  ∧ Forall (fun total => (1 ≤ total)%nat) (row_sums (crosstab a b))
  ∧ Forall (fun total => (1 ≤ total)%nat) (col_sums (crosstab a b)).
Proof.
  split; [apply row_sums_crosstab|]. split; [apply col_sums_crosstab|].
  rewrite row_sums_crosstab, col_sums_crosstab.
  unfold crosstab; cbn [ct_index ct_columns]. fold (complete_pairs a b).
  split; [|split; [|split]].
  - apply (sum_count_by_key fst); [apply NoDup_sorted_labels|].
    intros o Ho. by apply complete_pairs_labels.
  - apply (sum_count_by_key snd); [apply NoDup_sorted_labels|].
    intros o Ho. by apply complete_pairs_labels.
  - apply Forall_forall. intros n Hn. apply list_elem_of_In, in_map_iff in Hn as (r & <- & Hr).
    apply list_elem_of_In, elem_of_sorted_labels in Hr as [Hr _].
    apply list_elem_of_fmap in Hr as (o & -> & Ho).
    assert (o ∈ filter (fun o' : cell * cell => o'.1 = o.1) (complete_pairs a b)) as Hin.
    { by apply list_elem_of_filter. }
    destruct (filter _ (complete_pairs a b)); [by apply not_elem_of_nil in Hin | simpl; lia].
  - apply Forall_forall. intros n Hn. apply list_elem_of_In, in_map_iff in Hn as (c & <- & Hc).
    apply list_elem_of_In, elem_of_sorted_labels in Hc as [Hc _].
    apply list_elem_of_fmap in Hc as (o & -> & Ho).
    assert (o ∈ filter (fun o' : cell * cell => o'.2 = o.2) (complete_pairs a b)) as Hin.
    { by apply list_elem_of_filter. }
    destruct (filter _ (complete_pairs a b)); [by apply not_elem_of_nil in Hin | simpl; lia].
Qed.

#[global] Instance cell_le_total : Total cell_le.
Proof.
  intros [|x|s] [|y|t]; simpl; auto.
  - destruct (total Qcle x y); auto.
  - apply String.leb_total.
Qed.

(** X10: the row labels of a cross-tabulation are sorted and distinct, and
    a label is a row label exactly when some row of the data carries it and
    has a value in the other column too; the same holds for the column
    labels.  A missing value is never a label. *)
Theorem crosstab_labels (a b : Series) :
  Sorted cell_le (ct_index (crosstab a b))
  ∧ NoDup (ct_index (crosstab a b))
  ∧ (∀ r, r ∈ ct_index (crosstab a b) <-> ∃ c, (r, c) ∈ complete_pairs a b)
  ∧ Sorted cell_le (ct_columns (crosstab a b))
  ∧ NoDup (ct_columns (crosstab a b))
  ∧ (∀ c, c ∈ ct_columns (crosstab a b) <-> ∃ r, (r, c) ∈ complete_pairs a b)
  ∧ (NaN ∉ ct_index (crosstab a b)) ∧ (NaN ∉ ct_columns (crosstab a b)).
Proof.
  unfold crosstab; cbn [ct_index ct_columns]. fold (complete_pairs a b).
  assert (∀ o, o ∈ complete_pairs a b -> o.1 ≠ NaN ∧ o.2 ≠ NaN) as Hobs.
  { intros o Ho. unfold complete_pairs in Ho. by apply list_elem_of_filter in Ho as [? _]. }
  split; [apply Sorted_merge_sort, _|]. split; [apply NoDup_sorted_labels|].
  split; [|split; [apply Sorted_merge_sort, _|]; split; [apply NoDup_sorted_labels|]; split].
  - intros r. rewrite elem_of_sorted_labels, list_elem_of_fmap. split.
    + intros [Hin _]. destruct Hin as ([r' c] & -> & Ho). by exists c.
    + intros [c Ho]. split; [by exists (r, c) | apply (Hobs _ Ho)].
  - intros c. rewrite elem_of_sorted_labels, list_elem_of_fmap. split.
    + intros [Hin _]. destruct Hin as ([r c'] & -> & Ho). by exists r.
    + intros [r Ho]. split; [by exists (r, c) | apply (Hobs _ Ho)].
  - split; intros [_ Hne]%elem_of_sorted_labels; done.
Qed.

(** ** Pruning *)

Lemma select_fmap_self {A} (keep : A -> bool) (l : list A) :
  select (map keep l) l = List.filter keep l.
Proof. induction l as [|x l IH]; [done|]. simpl. rewrite IH. by destruct (keep x). Qed.

Lemma select_fmap {A B} (f : A -> B) (keep : list bool) (l : list A) :
  select keep (map f l) = map f (select keep l).
Proof.
  revert l. induction keep as [|k keep IH]; intros [|x l]; simpl; try done.
  rewrite IH. by destruct k.
Qed.

Lemma select_decide {A} (P : A -> Prop) `{∀ x, Decision (P x)} (l : list A) :
  select (map (fun x => bool_decide (P x)) l) l = filter P l.
Proof.
  induction l as [|x l IH]; [done|]. cbn [map select]. rewrite filter_cons, IH.
  case_bool_decide; [by rewrite decide_True | by rewrite decide_False].
Qed.

(** The table after lines 43-45 is the table pruned by the observations:
    the guard of line 43 changes nothing. *)
Lemma prune_if_sparse_spec (a b : Series) (min_count : nat) :
  prune_if_sparse (crosstab a b) min_count = pruned_contingency a b min_count.
Proof.
  rewrite prune_if_sparse_marginals by apply crosstab_well_shaped.
  unfold prune_marginals, loc_masks, pruned_contingency, frequent_labels.
  rewrite row_sums_crosstab, col_sums_crosstab, !map_map.
  unfold crosstab; cbn [ct_index ct_columns ct_counts]. fold (complete_pairs a b).
  rewrite !(select_decide
              (fun l => (min_count ≤ length (filter (fun o : cell * cell => o.1 = l)
                                               (complete_pairs a b)))%nat)).
  rewrite !(select_decide
              (fun l => (min_count ≤ length (filter (fun o : cell * cell => o.2 = l)
                                               (complete_pairs a b)))%nat)).
  f_equal. rewrite select_fmap, map_map.
  rewrite (select_decide
              (fun l => (min_count ≤ length (filter (fun o : cell * cell => o.1 = l)
                                               (complete_pairs a b)))%nat)).
  apply map_ext. intros r. rewrite select_fmap.
  by rewrite (select_decide
              (fun l => (min_count ≤ length (filter (fun o : cell * cell => o.2 = l)
                                               (complete_pairs a b)))%nat)).
Qed.

(** C1 (as amended): the table the chi-square computation receives is the
    contingency table of the two columns without the rows and columns whose
    marginal total in the full table is below the minimum count: a label
    stays exactly when at least that many rows of the data carry it next to
    a value of the other column, and a cell counts the rows that carry both
    labels.  The totals are those of the full table: they are taken once,
    before anything is removed.  The result of the test is the statistic,
    p-value and degrees of freedom of that table; the callers pass the
    minimum 5. *)
Theorem chi_square_over_pruned_table {E : Externals}
    (df : DataFrame) (col_a col_b : string) (min_count : nat) :
  chi_square_test df col_a col_b min_count
  = match getitem df col_a, getitem df col_b with
    | Some a, Some b =>
        let pruned := pruned_contingency a b min_count in
        match chi2_contingency pruned with
        | Ok (chi2, p, dof) => Ok (chi2, p, dof, pruned)
        | Raise e => Raise e
        end
    | _, _ => Raise KeyError
    end.
Proof.
  unfold chi_square_test.
  destruct (getitem df col_a) as [a|]; [|done].
  destruct (getitem df col_b) as [b|]; [|done].
  by rewrite prune_if_sparse_spec.
Qed.

(** C1, the claim as written fails: the totals are not taken again after
    the removal, so a column that lost most of its observations with a
    removed row stays in the table with a total of 1. *)
Lemma pruned_table_keeps_sparse_column : ¬ handed_table_has_no_sparse_marginal.
Proof.
  intros Hspec.
  destruct (Hspec fixture table_sparse_row "Device" "Returned"
              (Some (qz 0)) (Some (qz 1)) 0%Z
              (mkCrosstab [Str "desktop"; Str "mobile"] [Str "a"; Str "b"; Str "c"]
                          [[3; 3; 1]; [3; 3; 0]])) as [_ Hcols].
  - by vm_compute.
  - vm_compute in Hcols. apply Forall_cons in Hcols as [_ Hcols].
    apply Forall_cons in Hcols as [_ Hcols]. apply Forall_cons in Hcols as [Hc _]. lia.
Qed.

(** X11: a category survives the pruning of the chi-square test exactly
    when it has at least [min_count] observations: a row (column) label of
    the cross-tabulation is kept if and only if at least [min_count] rows of
    the data carry it and have both values.  Categories below the minimum
    are dropped, not merged, and the kept part is still a rectangle. *)
Theorem pruning_keeps_frequent_labels (a b : Series) (min_count : nat) :
  let pruned := prune_if_sparse (crosstab a b) min_count in
  (∀ r, r ∈ ct_index pruned
        <-> r ∈ ct_index (crosstab a b)
            ∧ (min_count ≤ length (filter (fun o => o.1 = r) (complete_pairs a b)))%nat)
  ∧ (∀ c, c ∈ ct_columns pruned
          <-> c ∈ ct_columns (crosstab a b)
              ∧ (min_count ≤ length (filter (fun o => o.2 = c) (complete_pairs a b)))%nat)
  ∧ length (ct_counts pruned) = length (ct_index pruned)
  ∧ Forall (fun row => length row = length (ct_columns pruned)) (ct_counts pruned).
Proof.
  intros pruned. unfold pruned.
  rewrite prune_if_sparse_marginals by apply crosstab_well_shaped.
  unfold prune_marginals, loc_masks. cbn [ct_index ct_columns ct_counts].
  assert (ct_counts (crosstab a b)
          = map (fun r => map (count_pairs (complete_pairs a b) r)
                              (ct_columns (crosstab a b)))
                (ct_index (crosstab a b))) as Hcounts by reflexivity.
  rewrite row_sums_crosstab, col_sums_crosstab, !map_map, !select_fmap_self.
  split; [|split; [|split]].
  - intros r. rewrite list_elem_of_In, filter_In, <-list_elem_of_In, bool_decide_eq_true.
    done.
  - intros c. rewrite list_elem_of_In, filter_In, <-list_elem_of_In, bool_decide_eq_true.
    done.
  - rewrite Hcounts, select_fmap, !length_map. by rewrite select_fmap_self.
  - rewrite Hcounts, select_fmap, map_map. apply Forall_forall. intros row Hrow.
    apply list_elem_of_In, in_map_iff in Hrow as (r & <- & _).
    rewrite select_fmap, length_map. by rewrite select_fmap_self.
Qed.

(** ** Value counts *)

Lemma elem_of_unique (l : list cell) (x : cell) : x ∈ unique l <-> x ∈ l.
Proof.
  induction l as [|y l IH]; [done|]. cbn [unique].
  rewrite !elem_of_cons, list_elem_of_filter, IH.
  destruct (decide (x = y)) as [->|Hne]; [split; by left|].
  split; [intros [?|[_ ?]]; [done | by right] | intros [?|?]; [done | by right]].
Qed.

Lemma NoDup_unique (l : list cell) : NoDup (unique l).
Proof.
  induction l as [|y l IH]; [constructor|]. cbn [unique]. constructor.
  - rewrite list_elem_of_filter. by intros [Hne _].
  - by apply NoDup_filter.
Qed.

Lemma insert_by_count_perm (x : cell * nat) (l : list (cell * nat)) :
  insert_by_count x l ≡ₚ x :: l.
Proof.
  induction l as [|y l IH]; [done|]. simpl.
  destruct (bool_decide (y.2 ≤ x.2)%nat); [done|].
  rewrite IH. apply Permutation_swap.
Qed.

Lemma value_counts_sort_perm (l : list (cell * nat)) : foldr insert_by_count [] l ≡ₚ l.
Proof.
  induction l as [|x l IH]; [done|]. simpl. by rewrite insert_by_count_perm, IH.
Qed.

Lemma insert_by_count_sorted (x : cell * nat) (l : list (cell * nat)) :
  StronglySorted (fun a b => (b.2 ≤ a.2)%nat) l ->
  StronglySorted (fun a b => (b.2 ≤ a.2)%nat) (insert_by_count x l).
Proof.
  induction 1 as [|y l Hl IH Hy]; simpl.
  - repeat constructor.
  - case_bool_decide as Hle.
    + constructor; [by constructor|]. constructor; [done|].
      apply Forall_impl with (1 := Hy). intros z Hz. lia.
    + constructor; [done|]. rewrite insert_by_count_perm. constructor; [lia | done].
Qed.

Lemma value_counts_sort_sorted (l : list (cell * nat)) :
  StronglySorted (fun a b => (b.2 ≤ a.2)%nat) (foldr insert_by_count [] l).
Proof.
  induction l as [|x l IH]; simpl; [constructor | by apply insert_by_count_sorted].
Qed.

Lemma filter_present_count (vs : list cell) (v : cell) :
  v ≠ NaN ->
  length (filter (fun c => c = v) (filter (fun c => c ≠ NaN) vs))
  = length (filter (fun c => c = v) vs).
Proof.
  intros Hv. induction vs as [|c vs IH]; [done|].
  rewrite (filter_cons (fun c => c ≠ NaN)). destruct (decide (c ≠ NaN)) as [Hc|Hc].
  - rewrite !filter_cons. destruct (decide (c = v)); simpl; by rewrite IH.
  - apply dec_stable in Hc as ->. rewrite filter_cons_False by done. done.
Qed.

(** X12: [value_counts] lists every value present in the column exactly
    once and never the missing value, each with the number of rows that
    hold it; the list is ordered by count, largest first; and the counts add
    up to the number of rows that have a value. *)
Theorem value_counts_spec (vs : list cell) :
  NoDup (value_counts vs).*1
  ∧ (∀ v n, (v, n) ∈ value_counts vs
            <-> v ∈ vs ∧ v ≠ NaN ∧ n = length (filter (fun c => c = v) vs))
  ∧ StronglySorted (fun a b => (b.2 ≤ a.2)%nat) (value_counts vs)
  ∧ sum_list (value_counts vs).*2 = length (filter (fun c => c ≠ NaN) vs).
Proof.
  unfold value_counts.
  set (present := filter (fun c => c ≠ NaN) vs).
  set (counted := map (fun v => (v, length (filter (fun c => c = v) present)))
                      (unique present)).
  assert (counted.*1 = unique present) as Hkeys.
  { unfold counted. clear. induction (unique present) as [|v l IH]; [done|].
    cbn. f_equal. exact IH. }
  split; [|split; [|split]].
  - rewrite value_counts_sort_perm, Hkeys. apply NoDup_unique.
  - intros v n. rewrite value_counts_sort_perm. unfold counted, present.
    rewrite list_elem_of_In, in_map_iff. split.
    + intros (w & [= -> <-] & Hw).
      apply list_elem_of_In, elem_of_unique, list_elem_of_filter in Hw as [Hne Hin].
      by rewrite filter_present_count.
    + intros (Hin & Hne & ->). exists v. rewrite filter_present_count by done.
      split; [done|].
      apply list_elem_of_In, elem_of_unique, list_elem_of_filter. done.
  - apply value_counts_sort_sorted.
  - rewrite value_counts_sort_perm. unfold counted.
    rewrite <-list_fmap_compose.
    rewrite (list_fmap_ext _ (fun v => length (filter (fun c => id c = v) present))
               (unique present)) by done.
    apply (sum_count_by_key id); [apply NoDup_unique|].
    intros c Hc. by apply elem_of_unique.
Qed.





Example value_counts_ties_ex :
  value_counts [Str "b"; Str "a"; NaN; Str "c"; Str "a"; Str "b"; Str "d"; Str "c"; Str "c"]
  = [(Str "c", 3); (Str "b", 2); (Str "a", 2); (Str "d", 1)].
Proof. by vm_compute. Qed.

(** ** Dropping rows with missing values *)

Lemma select_sublist {A} (keep : list bool) (l : list A) : select keep l `sublist_of` l.
Proof.
  revert l. induction keep as [|k keep IH]; intros [|x l]; simpl;
    try apply sublist_nil_l.
  destruct k; [by apply sublist_skip | by apply sublist_cons].
Qed.

Lemma select_length_eq {A B} (keep : list bool) (l : list A) (l' : list B) :
  length l = length l' -> length (select keep l) = length (select keep l').
Proof.
  revert l l'. induction keep as [|k keep IH]; intros [|x l] [|y l'] Hlen;
    simpl in *; try done.
  destruct k; simpl; rewrite (IH l l') by lia; done.
Qed.

Lemma select_andb_l {A} (P : A -> Prop) (m1 m2 : list bool) (l : list A) :
  Forall P (select m1 l) -> Forall P (select (zip_with andb m1 m2) l).
Proof.
  revert m2 l. induction m1 as [|k m1 IH]; intros [|k2 m2] [|x l] Hsel;
    simpl in *; try done.
  destruct k, k2; simpl in *.
  - inversion Hsel; subst. constructor; [done | by apply IH].
  - inversion Hsel; subst. by apply IH.
  - by apply IH.
  - by apply IH.
Qed.

Lemma select_andb_r {A} (P : A -> Prop) (m1 m2 : list bool) (l : list A) :
  Forall P (select m2 l) -> Forall P (select (zip_with andb m1 m2) l).
Proof.
  revert m2 l. induction m1 as [|k m1 IH]; intros [|k2 m2] [|x l] Hsel;
    simpl in *; try done.
  destruct k, k2; simpl in *.
  - inversion Hsel; subst. constructor; [done | by apply IH].
  - by apply IH.
  - inversion Hsel; subst. by apply IH.
  - by apply IH.
Qed.

Lemma select_notna (vs : list cell) : Forall (fun c => c ≠ NaN) (select (map notna vs) vs).
Proof.
  induction vs as [|c vs IH]; [done|]. simpl.
  destruct c; simpl; try done; by constructor.
Qed.

Lemma notna_mask_outcome (df : DataFrame) (subset : list string) :
  (∃ n, n ∈ subset ∧ getitem df n = None) ∧ notna_mask df subset = Raise KeyError
  ∨ (∀ n, n ∈ subset -> is_Some (getitem df n)) ∧ ∃ m, notna_mask df subset = Ok m.
Proof.
  induction subset as [|n subset IH]; simpl.
  - right. split; [by intros n Hn%not_elem_of_nil | eauto].
  - destruct (getitem df n) as [s|] eqn:Hn.
    + destruct IH as [[(n' & Hin & Hnone) ->]|[Hall [m ->]]].
      * left. split; [|done]. exists n'. split; [by right | done].
      * right. split; [|eauto]. intros n' [->|Hin]%elem_of_cons; [eauto | by apply Hall].
    + left. split; [|by destruct (notna_mask df subset)].
      exists n. split; [left | done].
Qed.

Lemma notna_mask_selects_present (df : DataFrame) (subset : list string) m n s :
  notna_mask df subset = Ok m -> n ∈ subset -> getitem df n = Some s ->
  Forall (fun c => c ≠ NaN) (select m (values s)).
Proof.
  revert m. induction subset as [|n' subset IH]; intros m Hm Hin Hs.
  - by apply not_elem_of_nil in Hin.
  - simpl in Hm. destruct (getitem df n') as [s'|] eqn:Hn'; [|done].
    destruct (notna_mask df subset) as [m'|] eqn:Hm'; [|done].
    simplify_eq. destruct (decide (n = n')) as [->|Hne].
    + simplify_eq. apply select_andb_l, select_notna.
    + apply elem_of_cons in Hin as [?|Hin]; [done|].
      apply select_andb_r. by apply IH.
Qed.

Lemma getitem_filter_rows (keep : list bool) (df : DataFrame) (n : string) :
  getitem (filter_rows keep df) n
  = (fun s => mkSeries (dtype_of s) (select keep (values s))) <$> getitem df n.
Proof.
  unfold getitem, filter_rows; simpl.
  induction (df_columns df) as [|[n' s] cols IH]; [done|]. simpl.
  destruct (decide (n' = n)); [done | apply IH].
Qed.

Lemma column_names_filter_rows (keep : list bool) (df : DataFrame) :
  column_names (filter_rows keep df) = column_names df.
Proof.
  unfold column_names, filter_rows; simpl.
  induction (df_columns df) as [|[n s] cols IH]; [done|]. cbn. f_equal. exact IH.
Qed.

Lemma filter_rows_well_formed (keep : list bool) (df : DataFrame) :
  well_formed df -> well_formed (filter_rows keep df).
Proof.
  intros (Hidx & Hnames & Hlen). split; [|split].
  - simpl. eapply sublist_NoDup; [exact Hidx | apply select_sublist].
  - by rewrite column_names_filter_rows.
  - simpl. apply Forall_forall. intros c Hc.
    apply list_elem_of_In, in_map_iff in Hc as ([n s] & <- & Hin). simpl.
    apply select_length_eq. rewrite Forall_forall in Hlen.
    by apply (Hlen (n, s)), list_elem_of_In.
Qed.

(** X13: [dropna(subset=...)] raises KeyError exactly when a column of the
    subset is absent, and raises nothing else.  Otherwise the frame it
    returns has the same columns, a sub-sequence of the row labels, no
    missing value left in any column of the subset, each column cut down to
    a sub-sequence of its values, and it is well formed when the input is. *)
Theorem dropna_subset_spec (df : DataFrame) (subset : list string) :
  (dropna_subset df subset = Raise KeyError
   <-> ∃ n, n ∈ subset ∧ getitem df n = None)
  ∧ (∀ e, dropna_subset df subset = Raise e -> e = KeyError)
  ∧ (∀ d, dropna_subset df subset = Ok d ->
       column_names d = column_names df
       ∧ df_index d `sublist_of` df_index df
       ∧ (∀ n s, n ∈ subset -> getitem d n = Some s ->
                 Forall (fun c => c ≠ NaN) (values s))
       ∧ (∀ n s, getitem d n = Some s ->
                 ∃ s0, getitem df n = Some s0 ∧ dtype_of s = dtype_of s0
                       ∧ values s `sublist_of` values s0)
       ∧ (well_formed df -> well_formed d)).
Proof.
  unfold dropna_subset.
  destruct (notna_mask_outcome df subset) as [[Hmissing ->]|[Hall [m Hm]]].
  - split; [done|]. split; [by intros e [= <-] | done].
  - rewrite Hm. split; [|split; [done|]].
    + split; [done|]. intros (n & Hin & Hnone).
      destruct (Hall n Hin) as [s Hs]. congruence.
    + intros d [= <-]. split; [apply column_names_filter_rows|].
      split; [apply select_sublist|]. split; [|split].
      * intros n s Hin. rewrite getitem_filter_rows.
        destruct (getitem df n) as [s0|] eqn:Hs0; [|done].
        intros [= <-]. simpl. by eapply notna_mask_selects_present.
      * intros n s. rewrite getitem_filter_rows.
        destruct (getitem df n) as [s0|] eqn:Hs0; [|done].
        intros [= <-]. exists s0. split; [done|]. split; [done|]. apply select_sublist.
      * apply filter_rows_well_formed.
Qed.

(** ** The categorical test on columns that are present *)

Lemma complete_pairs_select (idx : list nat) (va vb : list cell) :
  length va = length idx -> length vb = length idx ->
  let m := zip_with andb (map notna va)
             (zip_with andb (map notna vb) (map (fun _ => true) idx)) in
  filter (fun o : cell * cell => o.1 ≠ NaN ∧ o.2 ≠ NaN) (zip (select m va) (select m vb))
  = filter (fun o : cell * cell => o.1 ≠ NaN ∧ o.2 ≠ NaN) (zip va vb).
Proof.
  revert va vb. induction idx as [|i idx IH]; intros [|x va] [|y vb] Ha Hb;
    simpl in *; try done.
  specialize (IH va vb ltac:(lia) ltac:(lia)). simpl in IH.
  destruct x as [|qx|sx], y as [|qy|sy]; simpl;
    rewrite ?filter_cons; simpl;
    repeat (match goal with
            | |- context [decide ?P] => destruct (decide P) as [[? ?]|?]; try done
            end);
    try (by rewrite IH); try tauto; try (exfalso; naive_solver).
Qed.

Lemma crosstab_values (a b a' b' : Series) :
  complete_pairs a b = complete_pairs a' b' -> crosstab a b = crosstab a' b'.
Proof. unfold crosstab, complete_pairs. by intros ->. Qed.

(** X14: when both columns are present in a well-formed table, the two
    lines shared by the categorical tests amount to one test on the
    contingency table of the raw columns, without the labels that fewer
    than 5 complete rows carry: dropping the incomplete rows first changes
    nothing, because the cross-tabulation skips them anyway.  When the
    library call returns, one result with the name of the test is appended;
    when it raises, the exception propagates and the state is untouched. *)
Theorem run_chi_square_on_raw_columns {E : Externals}
    (d : DataFrame) (col_a col_b name : string) (a b : Series) (st : State) :
  well_formed d -> getitem d col_a = Some a -> getitem d col_b = Some b ->
  run_chi_square d col_a col_b name st
  = match chi2_contingency (pruned_contingency a b 5) with
    | Ok (chi2, p, dof) => (Ok tt, add_result (name, chi2, p, dof) st)
    | Raise e => (Raise e, st)
    end.
Proof.
  intros Hwf Ha Hb.
  unfold run_chi_square, dropna_subset, notna_mask. rewrite Ha, Hb.
  unfold bind at 1, lift at 1.
  unfold chi_square_test. rewrite !getitem_filter_rows, Ha, Hb. cbn [fmap option_fmap option_map].
  rewrite (crosstab_values _ _ a b).
  - rewrite prune_if_sparse_spec.
    unfold bind, lift, modify.
    by destruct (chi2_contingency _) as [[[chi2 p] dof]|e].
  - unfold complete_pairs. cbn [values].
    apply complete_pairs_select; by eapply getitem_length.
Qed.

Lemma run_chi_square_on_raw_columns_witness :
  pruned_contingency
    (mkSeries Object
       (replicate 7 (Str "desktop") ++ replicate 6 (Str "mobile")
        ++ replicate 4 (Str "tablet") ++ [NaN; Str "desktop"]))
    (mkSeries Object
       (replicate 3 (Str "a") ++ replicate 3 (Str "b") ++ [Str "c"]
        ++ replicate 3 (Str "a") ++ replicate 3 (Str "b")
        ++ replicate 4 (Str "c") ++ [Str "a"; NaN]))
    5
  = mkCrosstab [Str "desktop"; Str "mobile"] [Str "a"; Str "b"; Str "c"]
               [[3; 3; 1]; [3; 3; 0]]
  ∧ run_chi_square (E := fixture) table_sparse_row "Device" "Returned"
      "Device vs Returned (Chi-square)" init_state
    = (Ok tt, add_result ("Device vs Returned (Chi-square)",
                          Some (qz 0), Some (qz 1), 0%Z) init_state).
Proof.
  split; [by vm_compute|].
  assert (well_formed table_sparse_row) as Hwf.
  { by apply well_formed_eval; vm_compute. }
  rewrite (run_chi_square_on_raw_columns (E := fixture) table_sparse_row
             "Device" "Returned" "Device vs Returned (Chi-square)" _ _ init_state
             Hwf eq_refl eq_refl).
  by vm_compute.
Defined.

(** ** Label lookup and the regression rows *)

Lemma lookup_label_None (i : nat) (s : list (nat * Qc)) :
  lookup_label i s = None <-> i ∉ s.*1.
Proof.
  induction s as [|[j q] s IH]; simpl.
  - split; [intros _; apply not_elem_of_nil | done].
  - destruct (decide (j = i)) as [->|Hne].
    + split; [done|]. intros Hnin. exfalso. apply Hnin. left.
    + rewrite IH, not_elem_of_cons. split; [by split | by intros [_ ?]].
Qed.

Lemma lookup_label_elem (i : nat) (q : Qc) (s : list (nat * Qc)) :
  lookup_label i s = Some q -> (i, q) ∈ s.
Proof.
  induction s as [|[j p] s IH]; simpl; [done|].
  destruct (decide (j = i)) as [->|Hne].
  - intros [= ->]. left.
  - intros Hq. right. by apply IH.
Qed.

Lemma loc_outcome (s : list (nat * Qc)) (wanted : list nat) :
  (∃ i, i ∈ wanted ∧ i ∉ s.*1) ∧ loc s wanted = Raise KeyError
  ∨ (∀ i, i ∈ wanted -> i ∈ s.*1) ∧ ∃ found, loc s wanted = Ok found.
Proof.
  induction wanted as [|i wanted IH]; simpl.
  - right. split; [by intros i Hi%not_elem_of_nil | eauto].
  - destruct (lookup_label i s) as [q|] eqn:Hq.
    + destruct IH as [[(j & Hj & Hnin) ->]|[Hall [found ->]]].
      * left. split; [|done]. exists j. split; [by right | done].
      * right. split; [|eauto]. intros j [->|Hj]%elem_of_cons; [|by apply Hall].
        apply lookup_label_elem in Hq. by apply (list_elem_of_fmap_2 fst) in Hq.
    + left. split; [|by destruct (loc s wanted)].
      exists i. split; [left | by apply lookup_label_None].
Qed.

Lemma lookup_label_own (s : list (nat * Qc)) (i : nat) (q : Qc) :
  NoDup s.*1 -> (i, q) ∈ s -> lookup_label i s = Some q.
Proof.
  induction s as [|[j p] s IH]; intros Hnd Hin; [by apply not_elem_of_nil in Hin|].
  simpl in *. apply NoDup_cons in Hnd as [Hj Hnd].
  apply elem_of_cons in Hin as [[= -> ->]|Hin].
  - by rewrite decide_True.
  - rewrite decide_False; [by apply IH|]. intros ->. apply Hj.
    by apply (list_elem_of_fmap_2 fst) in Hin.
Qed.

Lemma loc_sublist (s : list (nat * Qc)) (part : list (nat * Qc)) :
  NoDup s.*1 -> (∀ x, x ∈ part -> x ∈ s) -> loc s part.*1 = Ok part.
Proof.
  intros Hnd. induction part as [|[i q] part IH]; intros Hin; [done|].
  assert (loc s part.*1 = Ok part) as Hrest.
  { apply IH. intros x Hx. apply Hin. by right. }
  cbn [fmap list_fmap fst loc].
  rewrite (lookup_label_own s i q) by (done || apply Hin; left).
  change (list_fmap _ _ fst part) with (part.*1). by rewrite Hrest.
Qed.

(** X15: a lookup of a list of labels raises KeyError exactly when one of
    the labels is not in the series, and raises nothing else; when it
    returns, the rows come in the order of the labels asked for, each with
    the value the series holds for its label; and looking up a series' own
    labels, when they are distinct, returns the series. *)
Theorem loc_spec (s : list (nat * Qc)) (wanted : list nat) :
  (loc s wanted = Raise KeyError <-> ∃ i, i ∈ wanted ∧ i ∉ s.*1)
  ∧ (∀ e, loc s wanted = Raise e -> e = KeyError)
  ∧ (∀ found, loc s wanted = Ok found ->
       found.*1 = wanted ∧ ∀ i q, (i, q) ∈ found -> lookup_label i s = Some q)
  ∧ (NoDup s.*1 -> loc s s.*1 = Ok s).
Proof.
  split; [|split; [|split]].
  - destruct (loc_outcome s wanted) as [[Hmissing ->]|[Hall [found ->]]]; [done|].
    split; [done|]. intros (i & Hi & Hnin). exfalso. by apply Hnin, Hall.
  - intros e. destruct (loc_outcome s wanted) as [[_ ->]|[_ [found ->]]]; [|done].
    by intros [= <-].
  - revert wanted. intros wanted found. revert found.
    induction wanted as [|i wanted IH]; intros found Hloc; simpl in Hloc.
    + simplify_eq. split; [done|]. by intros i q Hin%not_elem_of_nil.
    + destruct (lookup_label i s) as [q|] eqn:Hq; [|done].
      destruct (loc s wanted) as [r|e]; [|done]. simplify_eq.
      destruct (IH r eq_refl) as [Hlabels Hvalues]. split; [simpl; by f_equal|].
      intros j p [[= -> ->]|Hin]%elem_of_cons; [done | by apply Hvalues].
  - intros Hnd. by apply loc_sublist.
Qed.

Lemma dropna_indexed_labels (idx : list nat) (vs : list cell) (i : nat) :
  NoDup idx -> length vs = length idx ->
  i ∈ (dropna_indexed (zip idx vs)).*1
  <-> ∃ k q, idx !! k = Some i ∧ vs !! k = Some (Num q).
Proof.
  intros Hnd. revert vs. induction Hnd as [|j idx Hj Hnd IH]; intros [|c vs] Hlen;
    simpl in *; try done.
  - split; [by intros ?%not_elem_of_nil | by intros ([|k] & q & ? & ?)].
  - specialize (IH vs ltac:(lia)).
    unfold dropna_indexed in *. cbn [zip zip_with omap list_omap]. cbn [fst snd].
    split.
    + intros Hin.
      assert (i ∈ (omap (fun lc : nat * cell =>
                 match lc.2 with Num q => Some (lc.1, q) | _ => None end)
                 (zip idx vs)).*1 ∨ ∃ q, i = j ∧ c = Num q) as [Hrest|(q & -> & ->)].
      { destruct c as [|q|t]; simpl in Hin; [by left | | by left].
        apply elem_of_cons in Hin as [->|Hin]; [right; eauto | by left]. }
      * apply IH in Hrest as (k & q & Hk & Hq). by exists (S k), q.
      * by exists 0, q.
    + intros ([|k] & q & Hk & Hq); simpl in *; simplify_eq.
      * simpl. left.
      * assert (i ∈ (omap (fun lc : nat * cell =>
                 match lc.2 with Num q => Some (lc.1, q) | _ => None end)
                 (zip idx vs)).*1) as Hrest by (apply IH; eauto).
        destruct c; simpl; [done | by right | done].
Qed.

Lemma is_nonzero_constant_spec (xs : list Qc) :
  is_nonzero_constant xs = true
  <-> ∃ v, v ≠ 0%Qc ∧ xs ≠ [] ∧ Forall (fun w => w = v) xs.
Proof.
  destruct xs as [|v rest]; simpl.
  - split; [done | by intros (v & _ & Hne & _)].
  - rewrite andb_true_iff, bool_decide_eq_true, forallb_forall. split.
    + intros [Hv Hrest]. exists v. split; [done|]. split; [done|].
      constructor; [done|]. apply Forall_forall. intros w Hw.
      apply list_elem_of_In, Hrest in Hw. by apply bool_decide_eq_true in Hw.
    + intros (w & Hw & _ & Hall). apply Forall_cons in Hall as [-> Hall].
      split; [done|]. intros x Hx. apply bool_decide_eq_true.
      rewrite Forall_forall in Hall. by apply Hall, list_elem_of_In.
Qed.

(** C7: on a well-formed table whose discount-percent and quantity columns
    hold numbers, the regression step does one of two things.  When the
    discount has a value on every row where quantity has one, the fit
    receives exactly the rows where quantity has a value and the discount
    of those same rows in the same order, and the line written carries the
    coefficient and p-value the fit reports for the discount; the design
    has the discount behind a column of ones, except when the discount is
    one non-zero value throughout, where it is the discount alone, with no
    intercept.  When some row has a quantity but no discount, the alignment
    raises KeyError, nothing is fitted and the state is unchanged. *)
Theorem regression_step_outcome {E : Externals}
    (df : DataFrame) (discount quantity : Series) :
  well_formed df ->
  getitem df "DiscountPercent" = Some discount ->
  getitem df "Quantity" = Some quantity ->
  is_number (dtype_of discount) = true -> is_number (dtype_of quantity) = true ->
  ((∀ k q, values quantity !! k = Some (Num q) ->
           ∃ d, values discount !! k = Some (Num d)) ->
   (discount_on_rows (df_index df) (values discount) (values quantity)).*1
   = (rows_with_quantity (df_index df) (values quantity)).*1
   ∧ ∀ st, h5_regression df st
           = regression_outcome
               (ols_fit (rows_with_quantity (df_index df) (values quantity))
                        (add_constant "DiscountPercent"
                           (discount_on_rows (df_index df) (values discount)
                                             (values quantity)))) st)
  ∧ ((∃ k q, values quantity !! k = Some (Num q)
             ∧ ∀ d, values discount !! k ≠ Some (Num d)) ->
     ∀ st, h5_regression df st = (Raise KeyError, st))
  ∧ (∀ x : list (nat * Qc),
       (is_nonzero_constant x.*2 = true
        <-> ∃ v, v ≠ 0%Qc ∧ x ≠ [] ∧ Forall (fun row => row.2 = v) x)
       ∧ (is_nonzero_constant x.*2 = true ->
          add_constant "DiscountPercent" x = [("DiscountPercent", x)])
       ∧ (is_nonzero_constant x.*2 = false ->
          add_constant "DiscountPercent" x = with_intercept x)).
Proof.
  intros Hwf Hd Hq Hdn Hqn.
  pose proof (getitem_length _ _ _ Hwf Hd) as Hld.
  pose proof (getitem_length _ _ _ Hwf Hq) as Hlq.
  destruct Hwf as (Hnd & _).
  assert (∀ st r,
            loc (dropna_indexed (zip (df_index df) (values discount)))
                (rows_with_quantity (df_index df) (values quantity)).*1 = r ->
            h5_regression df st
            = match r with
              | Ok x => regression_outcome
                          (ols_fit (rows_with_quantity (df_index df) (values quantity))
                                   (add_constant "DiscountPercent" x)) st
              | Raise e => (Raise e, st)
              end) as Hstep.
  { intros st r Hr. unfold h5_regression.
    assert (issubset ["DiscountPercent"; "Quantity"] df = true) as ->.
    { unfold issubset. cbn [forallb].
      rewrite !(proj2 (has_column_getitem _ _)); [done | rewrite Hq | rewrite Hd]; eauto. }
    cbn [when]. rewrite Hd, Hq. unfold astype_float. rewrite Hdn, Hqn.
    unfold bind at 1, lift at 1. unfold bind at 1, lift at 1. cbn [values].
    fold (rows_with_quantity (df_index df) (values quantity)).
    unfold bind at 1, lift at 1. rewrite Hr. destruct r as [x|e]; [|done].
    unfold bind, lift, modify, regression_outcome.
    by destruct (ols_fit _ _). }
  split; [|split].
  - intros Hpresent.
    assert (loc (dropna_indexed (zip (df_index df) (values discount)))
                (rows_with_quantity (df_index df) (values quantity)).*1
            = Ok (discount_on_rows (df_index df) (values discount) (values quantity)))
      as Hloc.
    { apply loc_aligned; [done | done |].
      intros k i q Hi Hk. destruct (Hpresent k q Hk) as [d Hdk].
      exists d. split; [done|]. by eapply lookup_label_zip. }
    split; [by apply loc_labels in Hloc|].
    intros st. by rewrite (Hstep st _ Hloc).
  - intros (k & q & Hk & Hmissing) st.
    assert (is_Some (df_index df !! k)) as [i Hi].
    { apply lookup_lt_is_Some. apply lookup_lt_Some in Hk. lia. }
    rewrite (Hstep st (Raise KeyError)); [done|].
    destruct (loc_outcome (dropna_indexed (zip (df_index df) (values discount)))
                (rows_with_quantity (df_index df) (values quantity)).*1)
      as [[_ ->]|[Hall _]]; [done|].
    exfalso.
    assert (i ∈ (rows_with_quantity (df_index df) (values quantity)).*1) as Hin.
    { apply dropna_indexed_labels; [done | done | by exists k, q]. }
    apply Hall, dropna_indexed_labels in Hin as (k' & d & Hk' & Hd'); [|done|done].
    assert (k' = k) as -> by (by eapply NoDup_lookup).
    by apply (Hmissing d).
  - intros x. split; [|split].
    + rewrite is_nonzero_constant_spec. split.
      * intros (v & Hv & Hne & Hall). exists v. split; [done|].
        split; [by destruct x|]. by apply Forall_fmap in Hall.
      * intros (v & Hv & Hne & Hall). exists v. split; [done|].
        split; [by destruct x|]. by apply Forall_fmap.
    + intros Hc. unfold add_constant. by rewrite Hc.
    + intros Hc. unfold add_constant. by rewrite Hc.
Qed.

Lemma regression_step_outcome_witness :
  h5_regression (E := fixture) table_quantity_missing init_state
  = regression_outcome (E := fixture)
      (ols_fit (Externals := fixture) [(0, qz 1); (2, qz 3)]
         (with_intercept [(0, qz 10); (2, qz 30)])) init_state
  ∧ h5_regression (E := fixture) table_discount_missing init_state
    = (Raise KeyError, init_state)
  ∧ h5_regression (E := fixture) table_discount_constant init_state
    = regression_outcome (E := fixture)
        (ols_fit (Externals := fixture) [(0, qz 1); (1, qz 2); (2, qz 3)]
           [("DiscountPercent", [(0, qz 10); (1, qz 10); (2, qz 10)])]) init_state.
Proof.
  split; [|split].
  - assert (well_formed table_quantity_missing) as Hwf.
    { by apply well_formed_eval; vm_compute. }
    destruct (regression_step_outcome (E := fixture) table_quantity_missing
                (mkSeries Float64 [Num (qz 10); Num (qz 20); Num (qz 30)])
                (mkSeries Float64 [Num (qz 1); NaN; Num (qz 3)])
                Hwf eq_refl eq_refl eq_refl eq_refl) as (Hfit & _ & _).
    destruct Hfit as [_ Hfit].
    { intros [|[|[|k]]] q Hk; simpl in *; simplify_eq; eauto. }
    apply Hfit.
  - assert (well_formed table_discount_missing) as Hwf.
    { by apply well_formed_eval; vm_compute. }
    destruct (regression_step_outcome (E := fixture) table_discount_missing
                (mkSeries Float64 [Num (qz 10); NaN])
                (mkSeries Float64 [Num (qz 1); Num (qz 2)])
                Hwf eq_refl eq_refl eq_refl eq_refl) as (_ & Hraise & _).
    apply Hraise. exists 1, (qz 2). split; [done|]. intros d. discriminate.
  - assert (well_formed table_discount_constant) as Hwf.
    { by apply well_formed_eval; vm_compute. }
    destruct (regression_step_outcome (E := fixture) table_discount_constant
                (mkSeries Int64 [Num (qz 10); Num (qz 10); Num (qz 10)])
                (mkSeries Int64 [Num (qz 1); Num (qz 2); Num (qz 3)])
                Hwf eq_refl eq_refl eq_refl eq_refl) as (Hfit & _ & _).
    destruct Hfit as [_ Hfit].
    { intros [|[|[|k]]] q Hk; simpl in *; simplify_eq; eauto. }
    apply Hfit.
Defined.

(** X16: the regression step raises KeyError, with the state untouched and
    the fit never reached, whenever both columns are numeric and some row
    has a quantity but no discount. *)
Theorem regression_key_error {E : Externals}
    (df : DataFrame) (discount quantity : Series) (k : nat) (q : Qc) :
  well_formed df ->
  getitem df "DiscountPercent" = Some discount ->
  getitem df "Quantity" = Some quantity ->
  is_number (dtype_of discount) = true -> is_number (dtype_of quantity) = true ->
  values quantity !! k = Some (Num q) ->
  (∀ d, values discount !! k ≠ Some (Num d)) ->
  ∀ st, h5_regression df st = (Raise KeyError, st).
Proof.
  intros Hwf Hd Hq Hdn Hqn Hk Hmissing st.
  pose proof (getitem_length _ _ _ Hwf Hd) as Hld.
  pose proof (getitem_length _ _ _ Hwf Hq) as Hlq.
  destruct Hwf as (Hnd & _).
  assert (is_Some (df_index df !! k)) as [i Hi].
  { apply lookup_lt_is_Some. apply lookup_lt_Some in Hk. lia. }
  assert (loc (dropna_indexed (zip (df_index df) (values discount)))
              (dropna_indexed (zip (df_index df) (values quantity))).*1
          = Raise KeyError) as Hloc.
  { destruct (loc_outcome (dropna_indexed (zip (df_index df) (values discount)))
                (dropna_indexed (zip (df_index df) (values quantity))).*1)
      as [[_ ->]|[Hall _]]; [done|].
    exfalso.
    assert (i ∈ (dropna_indexed (zip (df_index df) (values quantity))).*1) as Hin.
    { apply dropna_indexed_labels; [done | done | by exists k, q]. }
    apply Hall, dropna_indexed_labels in Hin as (k' & d & Hk' & Hd'); [|done|done].
    assert (k' = k) as -> by (by eapply NoDup_lookup).
    by apply (Hmissing d). }
  unfold h5_regression.
  assert (issubset ["DiscountPercent"; "Quantity"] df = true) as ->.
  { unfold issubset. cbn [forallb].
    rewrite !(proj2 (has_column_getitem _ _)); [done | rewrite Hq | rewrite Hd]; eauto. }
  cbn [when]. rewrite Hd, Hq. unfold astype_float. rewrite Hdn, Hqn.
  unfold bind at 1, lift at 1. unfold bind at 1, lift at 1. cbn [values].
  unfold bind at 1, lift at 1. by rewrite Hloc.
Qed.

Lemma regression_key_error_witness :
  h5_regression (E := fixture) table_discount_missing init_state
  = (Raise KeyError, init_state).
Proof.
  assert (well_formed table_discount_missing) as Hwf.
  { by apply well_formed_eval; vm_compute. }
  apply (regression_key_error (E := fixture) table_discount_missing
           (mkSeries Float64 [Num (qz 10); NaN])
           (mkSeries Float64 [Num (qz 1); Num (qz 2)]) 1 (qz 2)
           Hwf eq_refl eq_refl eq_refl eq_refl eq_refl).
  intros d. discriminate.
Defined.

(** ** What a run leaves behind *)

Section RunOutputs.
Context {E : Externals}.

Lemma run_analysis_outputs a df st :
  ∃ ps ns,
    ps `sublist_of` chart_paths_of [a] ∧ ns `sublist_of` test_names_of [a]
    ∧ map plot_path (plots (run_analysis a df st).2) = map plot_path (plots st) ++ ps
    ∧ map test_name (results (run_analysis a df st).2) = map test_name (results st) ++ ns
    ∧ reports (run_analysis a df st).2 = reports st.
Proof.
  destruct (run_analysis_effect a df st) as [->|Hprod].
  - exists [], []. rewrite !app_nil_r. repeat split; apply sublist_nil_l.
  - unfold chart_paths_of, test_names_of. cbn [omap list_omap].
    destruct (output_of a) as [path|name| |]; simpl in Hprod.
    + destruct Hprod as (p & <- & ->). exists [plot_path p], []. simpl.
      rewrite map_app, app_nil_r. by repeat split.
    + destruct Hprod as (chi2 & pv & dof & ->). exists [], [name]. simpl.
      rewrite map_app, app_nil_r. by repeat split.
    + destruct Hprod as (l & ->). exists [], []. simpl.
      rewrite !app_nil_r. by repeat split.
    + destruct Hprod as (l & ->). exists [], []. simpl.
      rewrite !app_nil_r. by repeat split.
Qed.

Lemma omap_cons_app {A B} (f : A -> option B) (a : A) (l : list A) :
  omap f (a :: l) = omap f [a] ++ omap f l.
Proof. simpl. by destruct (f a). Qed.

Lemma run_all_outputs l df st :
  ∃ ps ns,
    ps `sublist_of` chart_paths_of l ∧ ns `sublist_of` test_names_of l
    ∧ map plot_path (plots (run_all l df st).2) = map plot_path (plots st) ++ ps
    ∧ map test_name (results (run_all l df st).2) = map test_name (results st) ++ ns
    ∧ reports (run_all l df st).2 = reports st.
Proof.
  revert st. induction l as [|a l IH]; intros st.
  - exists [], []. simpl. rewrite !app_nil_r. repeat split; apply sublist_nil_l.
  - destruct (run_analysis_outputs a df st) as (ps1 & ns1 & Hp1 & Hn1 & Hps1 & Hns1 & Hr1).
    cbn [run_all]. unfold bind.
    unfold chart_paths_of, test_names_of.
    rewrite (omap_cons_app _ a l), (omap_cons_app (fun a => match output_of a with
                                                      | Test name => Some name
                                                      | _ => None end) a l).
    destruct (run_analysis a df st) as [[[]|e] s1]; simpl in *.
    + destruct (IH s1) as (ps2 & ns2 & Hp2 & Hn2 & Hps2 & Hns2 & Hr2).
      exists (ps1 ++ ps2), (ns1 ++ ns2).
      rewrite Hps2, Hns2, Hr2, Hps1, Hns1, Hr1, !app_assoc.
      repeat split; by apply sublist_app.
    + exists ps1, ns1. rewrite Hps1, Hns1, Hr1.
      repeat split; try done; by apply sublist_inserts_r.
Qed.

(** X17: whatever the table and whether or not the run raises, the
    analyses leave at most the four chart files and at most the four
    categorical results, each at most once and in the order of the program,
    and they write no report. *)
Theorem analyses_outputs (df : DataFrame) :
  map plot_path (plots (analyses df init_state).2)
    `sublist_of` ["visuals/plots/revenue_by_category.png";
                  "visuals/plots/return_rate_by_category.png";
                  "visuals/plots/return_rate_by_brand.png";
                  "visuals/plots/return_rate_by_device.png"]
  ∧ map test_name (results (analyses df init_state).2)
      `sublist_of` ["Device vs Returned (Chi-square)";
                    "Region vs DeliveryStatus (Chi-square)";
                    "AgeGroup vs Returned (Chi-square)";
                    "Top Brands vs Returned (Chi-square)"]
  ∧ reports (analyses df init_state).2 = [].
Proof.
  rewrite analyses_run_all.
  destruct (run_all_outputs all_analyses df init_state)
    as (ps & ns & Hp & Hn & -> & -> & ->).
  done.
Qed.

(** X18: [main] returns only with all three reports written, in the order
    data quality, hypothesis testing, insight summary, the hypothesis text
    being that of the state the analyses left; when [main] raises, the
    hypothesis report and the insight summary are not written: at most the
    data-quality report (and the charts drawn so far) is left. *)
Theorem main_reports (df0 : DataFrame) :
  match main df0 init_state with
  | (Ok _, st) =>
      ∃ dq st1, analyses (enrich df0).2
                  (write_file "reports/data_quality_report.md" dq init_state)
                = (Ok tt, st1)
                ∧ reports st = [("reports/data_quality_report.md", dq);
                                ("reports/hypothesis_testing.md", hypothesis_text st1);
                                ("reports/insight_summary.md", insight_summary)]
  | (Raise _, st) =>
      reports st = [] ∨ ∃ dq, reports st = [("reports/data_quality_report.md", dq)]
  end.
Proof.
  unfold main. destruct (enrich df0) as [[[]|e] df]; simpl; [|by left].
  unfold bind at 1, lift at 1.
  destruct (quality_report df (outlier_counts df)) as [dq|e]; [|by left].
  unfold bind at 1, modify at 1.
  set (st0 := write_file "reports/data_quality_report.md" dq init_state).
  pose proof (run_all_outputs all_analyses df st0) as (ps & ns & _ & _ & _ & _ & Hrep).
  rewrite <-analyses_run_all in Hrep. unfold bind at 1.
  destruct (analyses df st0) as [[[]|e] st1] eqn:Hrun; simpl in Hrep.
  - exists dq, st1. split; [done|]. simpl. by rewrite Hrep.
  - right. exists dq. by rewrite Hrep.
Qed.

End RunOutputs.

(** ** Return rates and bar charts *)

Local Open Scope Qc_scope.

Lemma qz_succ (n : nat) : qz (Z.of_nat (S n)) = 1 + qz (Z.of_nat n).
Proof.
  apply Qc_is_canon.
  change (this (qz (Z.of_nat (S n)))) with (inject_Z (Z.of_nat (S n))).
  change (this (1 + qz (Z.of_nat n))) with (Qred (Qred 1 + inject_Z (Z.of_nat n))).
  rewrite !Qred_correct, Nat2Z.inj_succ, <-Z.add_1_l, inject_Z_plus. reflexivity.
Qed.

Lemma sum_unit_bounds (ns : list Qc) :
  Forall (fun q => 0 ≤ q ∧ q ≤ 1) ns ->
  0 ≤ foldr Qcplus (qz 0) ns ∧ foldr Qcplus (qz 0) ns ≤ qz (Z.of_nat (length ns)).
Proof.
  induction 1 as [|q ns [Hq0 Hq1] _ [IH0 IH1]].
  - split; unfold Qcle, Qle; simpl; lia.
  - cbn [foldr length]. rewrite qz_succ. split.
    + by apply Qcplus_nonneg_nonneg.
    + by apply Qcplus_le_compat.
Qed.

Lemma rate_bounds (s n : Qc) :
  0 < n -> 0 ≤ s -> s ≤ n -> 0 ≤ s / n * qz 100 ∧ s / n * qz 100 ≤ qz 100.
Proof.
  intros Hn Hs0 Hsn. unfold Qcdiv.
  pose proof (Qcinv_pos n Hn) as Hinv.
  assert (0 ≤ qz 100) as H100 by (unfold Qcle, Qle; simpl; lia).
  assert (0 ≤ s * / n) as Hlo.
  { rewrite <-(Qcmult_0_l (/ n)).
    apply Qcmult_le_mono_nonneg_r; [by apply Qclt_le_weak | done]. }
  assert (s * / n ≤ 1) as Hhi.
  { rewrite <-(Qcmult_inv_r n) by (intros ->; by apply (Qclt_not_eq _ _ Hn)).
    apply Qcmult_le_mono_nonneg_r; [by apply Qclt_le_weak | done]. }
  split.
  - rewrite <-(Qcmult_0_l (qz 100)). by apply Qcmult_le_mono_nonneg_r.
  - rewrite <-(Qcmult_1_l (qz 100)) at 2. by apply Qcmult_le_mono_nonneg_r.
Qed.

Lemma agg_rate_bounds (vs : list cell) :
  Forall (fun c => c = NaN ∨ ∃ q, c = Num q ∧ 0 ≤ q ∧ q ≤ 1) vs ->
  agg_rate vs = NaN ∨ ∃ r, agg_rate vs = Num r ∧ 0 ≤ r ∧ r ≤ qz 100.
Proof.
  intros Hvs. unfold agg_rate, sum_numbers.
  assert (Forall (fun q => 0 ≤ q ∧ q ≤ 1) (dropna_numbers vs)) as Hns.
  { unfold dropna_numbers. induction Hvs as [|c vs Hc _ IH]; [done|].
    destruct Hc as [->|(q & -> & Hq)]; simpl; [done | by constructor]. }
  destruct (sum_unit_bounds _ Hns) as [H0 H1].
  destruct (dropna_numbers vs) as [|q ns] eqn:Hd; [by left|].
  right. eexists. split; [done|]. apply rate_bounds; [|done|done].
  cbn [length]. unfold Qclt, Qlt; simpl. lia.
Qed.

Lemma groups_values (keys vals : list cell) (g : cell * list cell) :
  g ∈ groups keys vals -> ∀ c, c ∈ g.2 -> c ∈ vals.
Proof.
  unfold groups. intros Hg c Hc.
  apply list_elem_of_In, in_map_iff in Hg as (k & <- & _). simpl in Hc.
  apply list_elem_of_fmap in Hc as ([k' c'] & -> & Hin).
  apply list_elem_of_filter in Hin as [_ Hin].
  revert Hin. clear. revert vals.
  induction keys as [|k keys IH]; intros [|v vals] Hin; simpl in *;
    try by apply not_elem_of_nil in Hin.
  apply elem_of_cons in Hin as [[= -> ->]|Hin]; [left | right; by apply IH].
Qed.

(** X19: on a numeric column whose values are fractions between 0 and 1
    (such as a 0/1 flag) or missing, the return rate of every group is
    missing or a percentage between 0 and 100, and there is one rate per
    key that is present, in sorted order. *)
Theorem return_rates_in_range {E : Externals} (key val : Series) :
  is_number (dtype_of val) = true ->
  Forall (fun c => c = NaN ∨ ∃ q, c = Num q ∧ 0 ≤ q ∧ q ≤ 1) (values val) ->
  ∃ rates, group_rate key val = Ok rates
           ∧ rates.*1 = sorted_labels (values key)
           ∧ Forall (fun g => g.2 = NaN ∨ ∃ r, g.2 = Num r ∧ 0 ≤ r ∧ r ≤ qz 100) rates.
Proof.
  intros Hnum Hvals. unfold group_rate. rewrite Hnum. eexists. split; [done|]. split.
  - unfold groups. rewrite map_map. cbn [fst].
    generalize (sorted_labels (values key)). clear.
    intros l. induction l as [|k l IH]; [done|]. cbn. f_equal. exact IH.
  - apply Forall_forall. intros g Hg.
    apply list_elem_of_In, in_map_iff in Hg as (g0 & <- & Hg0). cbn [snd].
    apply agg_rate_bounds. apply Forall_forall. intros c Hc.
    rewrite Forall_forall in Hvals. apply Hvals.
    apply (groups_values (values key) (values val) g0);
      [by apply list_elem_of_In | done].
Qed.

Lemma return_rates_in_range_witness :
  ∃ rates,
    group_rate (E := fixture)
      (mkSeries Object [Str "b"; Str "a"; NaN; Str "b"])
      (mkSeries Float64 [Num (qz 1); Num (qz 0); Num (qz 1); NaN]) = Ok rates
    ∧ rates.*1 = [Str "a"; Str "b"]
    ∧ Forall (fun g => g.2 = NaN ∨ ∃ r, g.2 = Num r ∧ 0 ≤ r ∧ r ≤ qz 100) rates.
Proof.
  apply (return_rates_in_range (E := fixture)
           (mkSeries Object [Str "b"; Str "a"; NaN; Str "b"])
           (mkSeries Float64 [Num (qz 1); Num (qz 0); Num (qz 1); NaN]) eq_refl).
  cbn [values].
  repeat (apply Forall_cons_2;
    [first [by left
           | right; eexists; split; [done|]; split; unfold Qcle, Qle; simpl; lia]|]).
  apply Forall_nil_2.
Defined.

Local Close Scope Qc_scope.

#[global] Instance value_ge_total : Total value_ge.
Proof.
  intros [k1 [|x|s]] [k2 [|y|t]]; unfold value_ge; simpl; auto.
  - destruct (total Qcle x y); auto.
  - destruct (String.leb_total s t); auto.
Qed.


Lemma insert_desc_perm (x : cell * cell) (l : list (cell * cell)) :
  insert_desc x l ≡ₚ x :: l.
Proof.
  induction l as [|y l IH]; [done|]. simpl.
  destruct (decide (value_ge x y)); [done|].
  rewrite IH. apply Permutation_swap.
Qed.

Lemma sort_desc_perm (s : list (cell * cell)) : sort_desc s ≡ₚ s.
Proof.
  induction s as [|x s IH]; [done|]. cbn [sort_desc foldr]. fold (sort_desc s).
  by rewrite insert_desc_perm, IH.
Qed.

Lemma insert_desc_sorted (x : cell * cell) (l : list (cell * cell)) :
  Sorted value_ge l -> Sorted value_ge (insert_desc x l).
Proof.
  induction 1 as [|y l Hl IH Hy]; simpl.
  - repeat constructor.
  - destruct (decide (value_ge x y)) as [Hxy|Hxy].
    + constructor; [by constructor | by constructor].
    + assert (value_ge y x) as Hyx by (by destruct (total value_ge x y)).
      constructor; [done|].
      destruct Hy as [|z l' Hyz]; simpl; [by constructor|].
      destruct (decide (value_ge x z)); by constructor.
Qed.

Lemma sort_desc_sorted (s : list (cell * cell)) : Sorted value_ge (sort_desc s).
Proof.
  induction s as [|x s IH]; [constructor|]. cbn [sort_desc foldr]. fold (sort_desc s).
  by apply insert_desc_sorted.
Qed.





(** ** Duplicate rows *)

Local Open Scope nat_scope.

Lemma remove_dups_length_equiv {A} `{EqDecision A} (l1 l2 : list A) :
  (∀ x, x ∈ l1 <-> x ∈ l2) -> length (remove_dups l1) = length (remove_dups l2).
Proof.
  intros Heq. apply Permutation_length, NoDup_Permutation; try apply NoDup_remove_dups.
  intros x. by rewrite !elem_of_remove_dups.
Qed.

Lemma remove_dups_length_le {A} `{EqDecision A} (l : list A) :
  length (remove_dups l) ≤ length l.
Proof.
  induction l as [|x l IH]; [done|]. simpl.
  destruct (decide_rel elem_of x l); simpl; lia.
Qed.

Lemma remove_dups_length_NoDup {A} `{EqDecision A} (l : list A) :
  length (remove_dups l) = length l <-> NoDup l.
Proof.
  induction l as [|x l IH]; [split; [constructor | done]|]. simpl.
  pose proof (remove_dups_length_le l) as Hle.
  destruct (decide_rel elem_of x l) as [Hin|Hnin]; simpl.
  - split; [lia|]. intros [Hnin _]%NoDup_cons. done.
  - rewrite NoDup_cons. split.
    + intros Hlen. split; [done|]. apply IH. lia.
    + intros [_ Hnd]. apply IH in Hnd. lia.
Qed.

Lemma duplicated_length {A} `{EqDecision A} (seen rows : list A) :
  length (duplicated seen rows) = length rows.
Proof. revert seen. induction rows as [|r rows IH]; intros seen; simpl; [done|].
  by rewrite IH. Qed.

(** Rows marked as duplicates plus distinct rows not seen before make up
    all the rows. *)
Lemma duplicated_count {A} `{EqDecision A} (seen rows : list A) :
  length (filter (fun b => b = true) (duplicated seen rows))
  + length (remove_dups (filter (fun r => r ∉ seen) rows))
  = length rows.
Proof.
  revert seen. induction rows as [|r rows IH]; intros seen; [done|].
  cbn [duplicated]. rewrite filter_cons. specialize (IH (r :: seen)).
  destruct (decide (r ∈ seen)) as [Hin|Hnin].
  - rewrite bool_decide_eq_true_2 by done. rewrite decide_True by done.
    rewrite (filter_cons_False (fun r0 => r0 ∉ seen)) by (intros Hn; by apply Hn).
    rewrite (remove_dups_length_equiv (filter (fun r0 => r0 ∉ seen) rows)
               (filter (fun r0 => r0 ∉ r :: seen) rows)).
    + simpl. lia.
    + intros x. rewrite !list_elem_of_filter, not_elem_of_cons.
      split; [|tauto]. intros [Hx ?]. repeat split; try done. by intros ->.
  - rewrite bool_decide_eq_false_2 by done. rewrite decide_False by done.
    rewrite (filter_cons_True (fun r0 => r0 ∉ seen)) by done.
    assert (length (remove_dups (r :: filter (fun r0 => r0 ∉ seen) rows))
            = S (length (remove_dups (filter (fun r0 => r0 ∉ r :: seen) rows))))
      as ->; [|simpl; lia].
    change (S (length (remove_dups (filter (fun r0 => r0 ∉ r :: seen) rows))))
      with (length (r :: remove_dups (filter (fun r0 => r0 ∉ r :: seen) rows))).
    apply Permutation_length, NoDup_Permutation.
    + apply NoDup_remove_dups.
    + apply NoDup_cons. split; [|apply NoDup_remove_dups].
      rewrite elem_of_remove_dups, list_elem_of_filter, not_elem_of_cons. tauto.
    + intros x. rewrite elem_of_remove_dups, !elem_of_cons, elem_of_remove_dups,
        !list_elem_of_filter, not_elem_of_cons.
      destruct (decide (x = r)) as [->|Hne]; [tauto|]. tauto.
Qed.

Lemma filter_all {A} (P : A -> Prop) `{∀ x, Decision (P x)} (l : list A) :
  (∀ x, P x) -> filter P l = l.
Proof.
  intros HP. induction l as [|x l IH]; [done|].
  by rewrite filter_cons_True, IH.
Qed.

Lemma table_rows_length (df : DataFrame) : length (table_rows df) = length (df_index df).
Proof. unfold table_rows. by rewrite length_map, length_seq. Qed.

(** X21: the duplicate count and the number of distinct rows add up to the
    number of rows; no row is counted as a duplicate exactly when all rows
    are distinct; and a non-empty table always has at least one row that is
    not a duplicate. *)
Theorem dup_count_spec (df : DataFrame) :
  dup_count df + length (remove_dups (table_rows df)) = (shape df).1
  ∧ (dup_count df = 0 <-> NoDup (table_rows df))
  ∧ (df_index df ≠ [] -> dup_count df < (shape df).1).
Proof.
  assert (dup_count df + length (remove_dups (table_rows df)) = length (df_index df))
    as Hcount.
  { pose proof (duplicated_count [] (table_rows df)) as Hc.
    rewrite (filter_all (fun r => r ∉ [])) in Hc by (intros r; apply not_elem_of_nil).
    by rewrite table_rows_length in Hc. }
  unfold shape. cbn [fst]. split; [done|]. split.
  - rewrite <-remove_dups_length_NoDup, table_rows_length. lia.
  - intros Hne.
    assert (table_rows df ≠ []) as Hrows.
    { intros Hnil. apply Hne. apply length_zero_iff_nil.
      by rewrite <-table_rows_length, Hnil. }
    destruct (table_rows df) as [|r rows] eqn:Hr; [done|].
    assert (0 < length (remove_dups (r :: rows))); [|lia].
    assert (r ∈ remove_dups (r :: rows)) as Hin by (apply elem_of_remove_dups; left).
    destruct (remove_dups (r :: rows)); [by apply not_elem_of_nil in Hin | simpl; lia].
Qed.

Lemma dup_count_spec_witness :
  dup_count (mkDataFrame [0; 1; 2; 3]
               [("Category", mkSeries Object [Str "a"; Str "b"; Str "a"; Str "a"]);
                ("Returned", mkSeries Float64 [Num (qz 1); NaN; Num (qz 1); Num (qz 0)])])
  < 4.
Proof.
  apply (dup_count_spec (mkDataFrame [0; 1; 2; 3]
               [("Category", mkSeries Object [Str "a"; Str "b"; Str "a"; Str "a"]);
                ("Returned", mkSeries Float64 [Num (qz 1); NaN; Num (qz 1); Num (qz 0)])])).
  discriminate.
Defined.

Example dup_count_ex :
  dup_count (mkDataFrame [0; 1; 2; 3]
               [("Category", mkSeries Object [Str "a"; Str "b"; Str "a"; Str "a"]);
                ("Returned", mkSeries Float64 [Num (qz 1); NaN; Num (qz 1); Num (qz 0)])])
  = 1.
Proof. by vm_compute. Qed.

(** ** Missingness *)

Lemma qz_le (a b : nat) : a ≤ b -> (qz (Z.of_nat a) ≤ qz (Z.of_nat b))%Qc.
Proof. intros Hab. unfold Qcle, Qle; simpl. lia. Qed.

Lemma qz_pos (n : nat) : 0 < n -> (0 < qz (Z.of_nat n))%Qc.
Proof. intros Hn. unfold Qclt, Qlt; simpl. lia. Qed.

Lemma qz_inj_0 (n : nat) : qz (Z.of_nat n) = 0%Qc -> n = 0.
Proof.
  intros Hq. apply (f_equal this) in Hq. simpl in Hq.
  injection Hq as Hq. lia.
Qed.

Lemma missing_share_bounds (vs : list cell) :
  mul_cell (isna_mean vs) (Num (qz 100)) = NaN
  ∨ ∃ q, mul_cell (isna_mean vs) (Num (qz 100)) = Num q ∧ (0 ≤ q ∧ q ≤ qz 100)%Qc.
Proof.
  destruct vs as [|c vs]; [by left|]. right. unfold isna_mean, mul_cell.
  eexists. split; [done|]. apply rate_bounds.
  - apply qz_pos. simpl. lia.
  - apply qz_nonneg.
  - apply qz_le, length_filter.
Qed.

Lemma missing_share_zero (vs : list cell) :
  vs ≠ [] ->
  mul_cell (isna_mean vs) (Num (qz 100)) = Num 0%Qc <-> NaN ∉ vs.
Proof.
  intros Hne. destruct vs as [|c vs]; [done|]. unfold isna_mean, mul_cell.
  set (k := length (filter (fun c0 => c0 = NaN) (c :: vs))).
  set (n := length (c :: vs)).
  assert (qz (Z.of_nat n) ≠ 0%Qc) as Hn.
  { intros Hq%qz_inj_0. done. }
  assert (k = 0 <-> NaN ∉ c :: vs) as Hk.
  { unfold k. split.
    - intros Hlen Hin.
      assert (NaN ∈ filter (fun c0 => c0 = NaN) (c :: vs)) as Hf
        by by apply list_elem_of_filter.
      destruct (filter _ (c :: vs)); [by apply not_elem_of_nil in Hf | done].
    - intros Hnin. destruct (filter _ (c :: vs)) as [|x l] eqn:Hf; [done|].
      exfalso. assert (x ∈ filter (fun c0 => c0 = NaN) (c :: vs)) as Hx
        by (rewrite Hf; left).
      apply list_elem_of_filter in Hx as [-> Hx]. done. }
  rewrite <-Hk. split.
  - intros Hq. apply qz_inj_0.
    apply (f_equal (fun c => match c with Num q => q | _ => 0%Qc end)) in Hq.
    cbn beta iota in Hq.
    apply Qcmult_integral in Hq as [Hq|Hq].
    + unfold Qcdiv in Hq. apply Qcmult_integral in Hq as [Hq|Hq]; [done|].
      exfalso. pose proof (Qcmult_inv_r _ Hn) as Hinv.
      rewrite Hq, Qcmult_0_r in Hinv. apply (f_equal this) in Hinv.
      by vm_compute in Hinv.
    + exfalso. apply (f_equal this) in Hq. by vm_compute in Hq.
  - intros Hk0. rewrite Hk0. by f_equal.
Qed.

Lemma value_ge_scaled (g g' : cell * cell) :
  (g.2 = NaN ∨ ∃ q, g.2 = Num q) -> (g'.2 = NaN ∨ ∃ q, g'.2 = Num q) ->
  value_ge g g' ->
  value_ge (g.1, mul_cell g.2 (Num (qz 100))) (g'.1, mul_cell g'.2 (Num (qz 100))).
Proof.
  destruct g as [k1 v1], g' as [k2 v2]. unfold value_ge. cbn [fst snd].
  intros [->|[x ->]] [->|[y ->]]; cbn [mul_cell]; try done.
  intros Hxy. apply Qcmult_le_mono_nonneg_r; [|done]. unfold Qcle, Qle; simpl; lia.
Qed.

Lemma Sorted_scaled (l : list (cell * cell)) :
  Forall (fun g => g.2 = NaN ∨ ∃ q, g.2 = Num q) l ->
  Sorted value_ge l ->
  Sorted value_ge (map (fun g => (g.1, mul_cell g.2 (Num (qz 100)))) l).
Proof.
  intros Hl Hs. induction Hs as [|g l Hs IH Hhd]; [constructor|].
  apply Forall_cons in Hl as [Hg Hl]. cbn [map]. constructor; [by apply IH|].
  destruct Hhd as [|g' l' Hge]; [constructor|]. cbn [map]. constructor.
  apply Forall_cons in Hl as [Hg' _]. by apply value_ge_scaled.
Qed.

Lemma isna_mean_shape (vs : list cell) : isna_mean vs = NaN ∨ ∃ q, isna_mean vs = Num q.
Proof. destruct vs; [by left | right; by eexists]. Qed.

(** X22: the missingness series has one entry per column, the share of
    missing values of that column in percent; every entry is missing (for a
    table with no row) or between 0 and 100; the entries are ordered largest
    first; and on a non-empty column the percentage is 0 exactly when the
    column has no missing value. *)
Theorem missing_pct_spec (df : DataFrame) :
  (missing_pct df).*1 ≡ₚ map Str (column_names df)
  ∧ (∀ g, g ∈ missing_pct df
          <-> ∃ c, c ∈ df_columns df
                   ∧ g = (Str c.1, mul_cell (isna_mean (values c.2)) (Num (qz 100))))
  ∧ Sorted value_ge (missing_pct df)
  ∧ Forall (fun g => g.2 = NaN ∨ ∃ q, g.2 = Num q ∧ (0 ≤ q ∧ q ≤ qz 100)%Qc)
           (missing_pct df)
  ∧ (∀ vs, vs ≠ [] ->
           mul_cell (isna_mean vs) (Num (qz 100)) = Num 0%Qc <-> NaN ∉ vs).
Proof.
  unfold missing_pct.
  set (raw := map (fun c : string * Series => (Str c.1, isna_mean (values c.2)))
                  (df_columns df)).
  assert (∀ g, g ∈ sort_desc raw <-> g ∈ raw) as Hmem.
  { intros g. by rewrite sort_desc_perm. }
  assert (∀ g, g ∈ raw <-> ∃ c, c ∈ df_columns df ∧ g = (Str c.1, isna_mean (values c.2)))
    as Hraw.
  { intros g. unfold raw. rewrite list_elem_of_In, in_map_iff. split.
    - intros (c & <- & Hc). exists c. by rewrite list_elem_of_In.
    - intros (c & Hc & ->). exists c. by rewrite <-list_elem_of_In. }
  split; [|split; [|split; [|split]]].
  - assert (∀ l : list (cell * cell),
              (map (fun g => (g.1, mul_cell g.2 (Num (qz 100)))) l).*1 = l.*1) as Hfst.
    { clear. induction l as [|[? ?] l IH]; [done|]. cbn. f_equal. exact IH. }
    rewrite Hfst, sort_desc_perm.
    assert (raw.*1 = map Str (column_names df)) as ->; [|done].
    unfold raw, column_names. clear.
    induction (df_columns df) as [|[n s] cols IH]; [done|]. cbn. f_equal. exact IH.
  - intros g. rewrite list_elem_of_In, in_map_iff. split.
    + intros (g0 & <- & Hg0). apply list_elem_of_In, Hmem, Hraw in Hg0 as (c & Hc & ->).
      by exists c.
    + intros (c & Hc & ->). exists (Str c.1, isna_mean (values c.2)). split; [done|].
      apply list_elem_of_In, Hmem, Hraw. by exists c.
  - apply Sorted_scaled; [|apply sort_desc_sorted].
    apply Forall_forall. intros g Hg. apply Hmem, Hraw in Hg as (c & _ & ->).
    apply isna_mean_shape.
  - apply Forall_forall. intros g Hg.
    apply list_elem_of_In, in_map_iff in Hg as (g0 & <- & Hg0).
    apply list_elem_of_In, Hmem, Hraw in Hg0 as (c & _ & ->). cbn [snd].
    apply missing_share_bounds.
  - apply missing_share_zero.
Qed.

(** ** The run on a table whose brands are all missing *)

Section NoBrand.
Context {E : Externals}.

Lemma save_bar_empty (title ylabel path : string) (st : State) :
  ∃ e, save_bar [] title ylabel path st = (Raise e, st).
Proof.
  unfold save_bar, bind, lift.
  destruct (render_bar_empty (mkPlot path title ylabel (sort_desc [])) eq_refl) as [e ->].
  by exists e.
Qed.

Lemma group_rate_no_key (key val : Series) (rates : list (cell * cell)) :
  Forall (fun c => c = NaN) (values key) -> group_rate key val = Ok rates -> rates = [].
Proof.
  intros Hkey Hrates.
  assert (sorted_labels (values key) = []) as Hnone.
  { apply sorted_labels_nil. by apply Forall_forall. }
  unfold group_rate in Hrates. destruct (is_number (dtype_of val)).
  - unfold groups in Hrates. rewrite Hnone in Hrates. by simplify_eq.
  - apply object_group_rate_keys in Hrates. rewrite Hnone in Hrates.
    by destruct rates.
Qed.

Lemma return_rate_by_brand_raises (df : DataFrame) (brand returned : Series) (st : State) :
  getitem df "Brand" = Some brand -> getitem df "Returned" = Some returned ->
  Forall (fun c => c = NaN) (values brand) ->
  ∃ e, return_rate_by_brand df st = (Raise e, st).
Proof.
  intros Hbrand Hreturned Hmissing. unfold return_rate_by_brand.
  assert (has_column "Brand" df = true) as ->.
  { apply has_column_getitem. rewrite Hbrand. eauto. }
  cbn [when]. rewrite Hbrand, Hreturned. unfold bind at 1, lift at 1.
  destruct (group_rate brand returned) as [rates|e] eqn:Hrates; [|by exists e].
  rewrite (group_rate_no_key _ _ _ Hmissing Hrates). apply save_bar_empty.
Qed.

Lemma h4_top_brands_skips (df : DataFrame) (brand : Series) (st : State) :
  getitem df "Brand" = Some brand -> Forall (fun c => c = NaN) (values brand) ->
  h4_top_brands df st = (Ok tt, st).
Proof.
  intros Hbrand Hmissing. unfold h4_top_brands.
  destruct (issubset ["Brand"; "Returned"] df); [|done]. cbn [when].
  rewrite Hbrand, (value_counts_all_missing _ Hmissing). cbn [take fmap list_fmap].
  unfold filter_rows, isin. cbn [df_index].
  rewrite select_none; [done|].
  apply Forall_fmap, Forall_true. intros c. unfold compose.
  apply bool_decide_eq_false_2, not_elem_of_nil.
Qed.

Lemma chart_keeps_results (a : analysis) (df : DataFrame) (st : State) (path : string) :
  output_of a = Chart path ->
  results (run_analysis a df st).2 = results st
  ∧ reports (run_analysis a df st).2 = reports st.
Proof.
  intros Hout. destruct (run_analysis_effect a df st) as [->|Hprod]; [done|].
  rewrite Hout in Hprod. by destruct Hprod as (p & _ & ->).
Qed.

Lemma analyses_raise_at_brand_chart (df : DataFrame) (brand returned : Series) (st : State) :
  getitem df "Brand" = Some brand -> getitem df "Returned" = Some returned ->
  Forall (fun c => c = NaN) (values brand) ->
  ∃ e st', analyses df st = (Raise e, st')
           ∧ results st' = results st ∧ reports st' = reports st.
Proof.
  intros Hbrand Hreturned Hmissing. unfold analyses.
  destruct (chart_keeps_results RevenueByCategory df st _ eq_refl) as [Hr1 Hp1].
  cbn [run_analysis] in Hr1, Hp1. unfold bind at 1.
  destruct (revenue_by_category df st) as [[[]|e] s1]; [|by exists e, s1].
  cbn [snd] in Hr1, Hp1. unfold bind at 1, return_rates.
  assert (has_column "Returned" df = true) as Hhas.
  { apply has_column_getitem. rewrite Hreturned. eauto. }
  destruct (chart_keeps_results ReturnRateByCategory df s1 _ eq_refl) as [Hr2 Hp2].
  cbn [run_analysis] in Hr2, Hp2. rewrite Hhas in Hr2, Hp2 |- *. cbn [when] in *.
  unfold bind at 1.
  destruct (return_rate_by_category df s1) as [[[]|e] s2].
  - cbn [snd] in Hr2, Hp2. unfold bind at 1.
    destruct (return_rate_by_brand_raises df brand returned s2) as [e ->]; try done.
    exists e, s2. split; [done|]. split; congruence.
  - cbn [snd] in Hr2, Hp2. exists e, s2. split; [done|]. split; congruence.
Qed.

(** C10: on a table that has the Brand and Returned columns with every
    brand missing, the guard of the Top-Brands test would skip it without a
    trace, but the run never reaches it: the return rates by brand are an
    empty series, plotting them raises, and [main] ends with that exception
    or an earlier one.  No test result is recorded and the hypothesis
    report is not written. *)
Theorem all_missing_brands_run_raises (df0 : DataFrame) (brand returned : Series) :
  getitem df0 "Brand" = Some brand -> getitem df0 "Returned" = Some returned ->
  Forall (fun c => c = NaN) (values brand) ->
  (∀ st, h4_top_brands df0 st = (Ok tt, st))
  ∧ (∀ st, ∃ e, return_rate_by_brand df0 st = (Raise e, st))
  ∧ (∀ st, ∃ e st', analyses df0 st = (Raise e, st')
                    ∧ results st' = results st ∧ reports st' = reports st)
  ∧ ∃ e st', main df0 init_state = (Raise e, st')
             ∧ results st' = []
             ∧ "reports/hypothesis_testing.md" ∉ (reports st').*1.
Proof.
  intros Hbrand Hreturned Hmissing.
  split; [intros st; by eapply h4_top_brands_skips|].
  split; [intros st; by eapply return_rate_by_brand_raises|].
  split; [intros st; by eapply analyses_raise_at_brand_chart|].
  unfold main.
  assert (∀ c, c ≠ "OrderDate" -> c ≠ "AgeGroup" -> c ≠ "Revenue" ->
               getitem (enrich df0).2 c = getitem df0 c) as Hkept.
  { intros c H1 H2 H3. rewrite enrich_unfold.
    by rewrite enrich_revenue_other, enrich_age_group_other, enrich_order_date_other. }
  destruct (enrich df0) as [[[]|e] df] eqn:Henrich; cbn [snd] in Hkept.
  - unfold bind at 1, lift at 1.
    destruct (quality_report df (outlier_counts df)) as [dq|e].
    + unfold bind at 1, modify at 1.
      assert (getitem df "Brand" = Some brand) as Hb by (by rewrite Hkept).
      assert (getitem df "Returned" = Some returned) as Hr by (by rewrite Hkept).
      destruct (analyses_raise_at_brand_chart df brand returned
                  (write_file "reports/data_quality_report.md" dq init_state)
                  Hb Hr Hmissing)
        as (e & st' & Hrun & Hresults & Hreports).
      exists e, st'. unfold bind at 1. rewrite Hrun. split; [done|].
      rewrite Hresults, Hreports. split; [done|]. cbn.
      intros Hin%list_elem_of_singleton. discriminate.
    + exists e, init_state. split; [done|]. split; [done|]. apply not_elem_of_nil.
  - exists e, init_state. split; [done|]. split; [done|]. apply not_elem_of_nil.
Qed.

End NoBrand.

Lemma all_missing_brands_run_raises_witness :
  h4_top_brands (E := fixture) table_brand_all_missing init_state = (Ok tt, init_state)
  ∧ ∃ e st', main (E := fixture) table_brand_all_missing init_state = (Raise e, st')
             ∧ results st' = []
             ∧ "reports/hypothesis_testing.md" ∉ (reports st').*1.
Proof.
  destruct (all_missing_brands_run_raises (E := fixture) table_brand_all_missing
              (mkSeries Float64 [NaN; NaN; NaN])
              (mkSeries Int64 [Num (qz 1); Num (qz 0); Num (qz 1)])
              eq_refl eq_refl ltac:(repeat constructor)) as (Hskip & _ & _ & Hmain).
  split; [apply Hskip | exact Hmain].
Defined.

(** The run on that table, with the library double: the bar plot of the
    empty series raises after the data-quality report was written. *)
Example all_missing_brands_run :
  main (E := fixture) table_brand_all_missing init_state
  = (Raise IndexError,
     mkState [] "" [] "" [("reports/data_quality_report.md", "")]).
Proof. by vm_compute. Qed.
